(** * linkScraper: the fetch/crawl engine

    A shallow embedding of [src/utils/request_utils.py] (the sliding-window
    rate limiter), [src/proxy.py] (the rotating proxy pool) and
    [src/scraper.py] (the retrying request layer and the pagination loop),
    with the properties of the engine stated over it; then of
    [src/utils/string_utils.py] (the city formatters), of
    [flatten_dictionary] and of what the scraper writes to files.

    Conventions.
    - Wall-clock time ([time.time()]) is an integer number of clock ticks.
      Every call of [time.time()] consumes the next reading of a list of
      readings supplied by the environment; a computation that needs a
      reading when none is left has not finished ([None] for the
      limiter alone, [Unfinished] for the methods).
    - The outside world (clock, proxy listing site, random generator,
      target site) is a record of such lists; Python exceptions are values
      of type [exn].
    - A method is a function from the state of its object and the world
      to its result, the new state and world, and the list of the
      effects it had on proxies, limiter and target site. *)

From Stdlib Require Import String Ascii ZArith List Bool Lia.
From Stdlib Require Import DecimalString DecimalZ DecimalPos FinFun.
Import ListNotations.
Open Scope Z_scope.

(** ** Python truthiness of the values the code tests with [if x] *)

(** [None] and [0] are falsy, every other number is truthy. *)
Definition truthy (x : option Z) : bool :=
  match x with
  | Some v => negb (v =? 0)
  | None => false
  end.

(** ** utils/request_utils.py: APIRateLimiter *)

Module RateLimiter.

Record APIRateLimiter := mkAPIRateLimiter {
  _rate_limit : option Z;
  _rate_second_delta : option Z;
  _request_times : list Z   (* the deque, oldest first *)
}.

(** [APIRateLimiter.__init__] *)
Definition init (rate_limit rate_second_delta : option Z) : APIRateLimiter :=
  mkAPIRateLimiter rate_limit rate_second_delta [].

Definition set_request_times (l : APIRateLimiter) (ts : list Z) : APIRateLimiter :=
  mkAPIRateLimiter (_rate_limit l) (_rate_second_delta l) ts.

(** The inner loop of [limit]:
<<
    while self._request_times:
        if now - self._request_times[0] > self._rate_second_delta:
            self._request_times.popleft()
        else:
            break
>> *)
Fixpoint popleft_expired (now delta : Z) (times : list Z) : list Z :=
  match times with
  | [] => []
  | t :: rest =>
      if now - t >? delta then popleft_expired now delta rest else times
  end.

(** The outer [while True] of [limit]: one reading of the clock per
    iteration, trim, test, and either [break] or sleep and poll again.
    Returns the value of [now] at the [break], the trimmed deque and the
    readings not yet consumed. *)
Fixpoint poll (rate_limit delta : Z) (clock : list Z) (times : list Z)
  : option (Z * list Z * list Z) :=
  match clock with
  | [] => None
  | now :: clock' =>
      let times' := popleft_expired now delta times in
      if Z.of_nat (length times') <? rate_limit
      then Some (now, times', clock')
      else poll rate_limit delta clock' times'
  end.

(** [APIRateLimiter.limit]; the wait between two polls is
    [time.sleep(0.00001)]. *)
Definition limit (l : APIRateLimiter) (clock : list Z)
  : option (APIRateLimiter * list Z) :=
  if truthy (_rate_limit l) && truthy (_rate_second_delta l) then
    match _rate_limit l, _rate_second_delta l with
    | Some rate_limit, Some delta =>
        match poll rate_limit delta clock (_request_times l) with
        | Some (_, times', t :: clock'') =>
            Some (set_request_times l (times' ++ [t]), clock'')
        | _ => None
        end
    | _, _ => None
    end
  else Some (l, clock).

(** The outer loop of [async_limit]; between two polls it builds an
    [asyncio.sleep(0.00001)] and goes on. *)
Fixpoint async_poll (rate_limit delta : Z) (clock : list Z) (times : list Z)
  : option (Z * list Z * list Z) :=
  match clock with
  | [] => None
  | now :: clock' =>
      let times' := popleft_expired now delta times in
      if Z.of_nat (length times') <? rate_limit
      then Some (now, times', clock')
      else async_poll rate_limit delta clock' times'
  end.

(** [APIRateLimiter.async_limit] *)
Definition async_limit (l : APIRateLimiter) (clock : list Z)
  : option (APIRateLimiter * list Z) :=
  if truthy (_rate_limit l) && truthy (_rate_second_delta l) then
    match _rate_limit l, _rate_second_delta l with
    | Some rate_limit, Some delta =>
        match async_poll rate_limit delta clock (_request_times l) with
        | Some (_, times', t :: clock'') =>
            Some (set_request_times l (times' ++ [t]), clock'')
        | _ => None
        end
    | _, _ => None
    end
  else Some (l, clock).

(** [__enter__] returns [self.limit()], [__exit__] does nothing;
    [__aenter__] awaits [self.async_limit()]. *)
Definition __enter__ := limit.
Definition __aenter__ := async_limit.

End RateLimiter.

(** ** Exceptions, outcomes and the outside world *)

(** The Python exception classes the engine can meet. *)
Inductive exn : Type :=
| Timeout                     (* requests.exceptions.Timeout *)
| TooManyRedirects            (* requests.exceptions.TooManyRedirects *)
| RequestException (cls : string)
    (* any other subclass of requests.exceptions.RequestException,
       e.g. ConnectionError *)
| OtherException (cls : string)
    (* an exception that is not a RequestException *)
| IndexError
| AttributeError
| KeyError
| RetryError.                 (* tenacity.RetryError *)

Definition exn_name (e : exn) : string :=
  match e with
  | Timeout => "Timeout"
  | TooManyRedirects => "TooManyRedirects"
  | RequestException cls => cls
  | OtherException cls => cls
  | IndexError => "IndexError"
  | AttributeError => "AttributeError"
  | KeyError => "KeyError"
  | RetryError => "RetryError"
  end%string.

(** How a call ends: it returns, it raises, or it has not finished with
    the readings the environment supplied. *)
Inductive result (A : Type) : Type :=
| Ret (a : A)
| Raise (e : exn)
| Unfinished.
Arguments Ret {A} a.
Arguments Raise {A} e.
Arguments Unfinished {A}.

(** An entry of the pool: the [[ip, port]] rows of the listing. *)
Definition ProxyEntry : Type := string * Z.

Definition entry_eqb (p q : ProxyEntry) : bool :=
  String.eqb (fst p) (fst q) && (snd p =? snd q).

(** A row of the listing table of free-proxy-list.net. *)
Record Row := mkRow {
  row_ip : string;        (* column "IP Address" *)
  row_port : Z;           (* column "Port" *)
  row_country : string    (* column "Country" *)
}.

(** What the code reads of a [requests.Response]: [bool(resp)] is
    [resp.ok], and [resp.text]. *)
Record Response := mkResponse {
  ok : bool;
  text : string
}.

Record World := mkWorld {
  clock : list Z;                      (* readings of time.time() *)
  listings : list (exn + list Row);    (* fetches of the proxy listing *)
  choices : list nat;                  (* draws of random.choice *)
  transport : list (exn + Response)    (* requests to the target site *)
}.

Definition set_clock (w : World) (c : list Z) : World :=
  mkWorld c (listings w) (choices w) (transport w).
Definition set_listings (w : World) (l : list (exn + list Row)) : World :=
  mkWorld (clock w) l (choices w) (transport w).
Definition set_choices (w : World) (c : list nat) : World :=
  mkWorld (clock w) (listings w) c (transport w).
Definition set_transport (w : World) (t : list (exn + Response)) : World :=
  mkWorld (clock w) (listings w) (choices w) t.

(** The effects of the request layer, in the order they happen. *)
Inductive event : Type :=
| Selected (p : ProxyEntry)      (* random.choice returned [p] *)
| Entered                       (* the rate limiter's __enter__ returned *)
| Sent (url : string) (proxy : option ProxyEntry) (o : exn + Response)
                                 (* a GET was issued and ended in [o] *)
| Evicted (p : ProxyEntry) (removed : bool).
                                 (* _remove_proxy(p) ran; [removed] tells
                                    whether it took [p] out of the pool *)

(** ** A state, error and log monad for the methods *)

Definition M (S A : Type) : Type := S -> result A * S * list event.

Definition ret {S A} (a : A) : M S A := fun s => (Ret a, s, []).

Definition bind {S A B} (m : M S A) (k : A -> M S B) : M S B :=
  fun s =>
    match m s with
    | (Ret a, s', evs) =>
        match k a s' with
        | (r, s'', evs') => (r, s'', evs ++ evs')
        end
    | (Raise e, s', evs) => (Raise e, s', evs)
    | (Unfinished, s', evs) => (Unfinished, s', evs)
    end.

Definition raise {S A} (e : exn) : M S A := fun s => (Raise e, s, []).
Definition emit {S} (ev : event) : M S unit := fun s => (Ret tt, s, [ev]).
Definition gets {S A} (f : S -> A) : M S A := fun s => (Ret (f s), s, []).
Definition modify {S} (f : S -> S) : M S unit := fun s => (Ret tt, f s, []).

Declare Scope py_scope.
Delimit Scope py_scope with py.
Notation "x <- m ;; k" := (bind m (fun x => k))
  (at level 100, m at next level, right associativity) : py_scope.
Notation "m ;;; k" := (bind m (fun _ => k))
  (at level 100, right associativity) : py_scope.
Open Scope py_scope.

(** [try: m except <classes accepted by handles>: handler]. *)
Definition try_except {S A} (m : M S A) (handles : exn -> bool)
  (handler : exn -> M S A) : M S A :=
  fun s =>
    match m s with
    | (Raise e, s', evs) =>
        if handles e then
          match handler e s' with
          | (r, s'', evs') => (r, s'', evs ++ evs')
          end
        else (Raise e, s', evs)
    | other => other
    end.

(** Run a method of a component held in a field of the caller, sharing
    the world. *)
Definition zoom {S T A} (proj : S -> T) (upd : S -> T -> S)
  (m : M (T * World) A) : M (S * World) A :=
  fun sw =>
    match m (proj (fst sw), snd sw) with
    | (r, (t, w), evs) => (r, (upd (fst sw) t, w), evs)
    end.

(** [time.time()] *)
Definition time_time {S} : M (S * World) Z :=
  fun sw =>
    match clock (snd sw) with
    | [] => (Unfinished, sw, [])
    | t :: c => (Ret t, (fst sw, set_clock (snd sw) c), [])
    end.

(** [random.choice(seq)]: IndexError on an empty sequence. *)
Definition random_choice {S A} (seq : list A) : M (S * World) A :=
  fun sw =>
    match seq with
    | [] => (Raise IndexError, sw, [])
    | x :: _ =>
        match choices (snd sw) with
        | [] => (Unfinished, sw, [])
        | i :: c =>
            (Ret (nth (Nat.modulo i (length seq)) seq x),
             (fst sw, set_choices (snd sw) c), [])
        end
    end.

(** ** proxy.py: Proxy *)

Module Proxy.

Record Proxy := mkProxy {
  proxy_list : list ProxyEntry;
  last_rotate_time : option Z;
  offset : Z                     (* ROTATE_PROXY_OFFSET of utils.configs *)
}.

(** [Proxy.__init__] *)
Definition init (ROTATE_PROXY_OFFSET : Z) : Proxy :=
  mkProxy [] None ROTATE_PROXY_OFFSET.

Definition set_proxy_list (p : Proxy) (l : list ProxyEntry) : Proxy :=
  mkProxy l (last_rotate_time p) (offset p).
Definition set_last_rotate_time (p : Proxy) (t : option Z) : Proxy :=
  mkProxy (proxy_list p) t (offset p).

(** [Proxy._check_time] *)
Definition _check_time : M (Proxy * World) bool :=
  current_time <- time_time ;;
  self <- gets fst ;;
  ret (match last_rotate_time self with
       | None => true
       | Some last => offset self <=? current_time - last
       end).

(** [requests.get("https://free-proxy-list.net/")] and [pd.read_html]:
    the rows of the first table, or the exception of the failed fetch or
    parse. *)
Definition fetch_listing : M (Proxy * World) (list Row) :=
  fun sw =>
    match listings (snd sw) with
    | [] => (Unfinished, sw, [])
    | inl e :: l => (Raise e, (fst sw, set_listings (snd sw) l), [])
    | inr rows :: l => (Ret rows, (fst sw, set_listings (snd sw) l), [])
    end.

(** [table[table["Country"] == "United States"][["IP Address", "Port"]]] *)
Definition united_states (rows : list Row) : list ProxyEntry :=
  map (fun r => (row_ip r, row_port r))
      (filter (fun r => String.eqb (row_country r) "United States") rows).

(** [Proxy.rotate_proxies] *)
Definition rotate_proxies : M (Proxy * World) unit :=
  due <- _check_time ;;
  self <- gets fst ;;
  if due || (Z.of_nat (length (proxy_list self)) <? 5) then
    rows <- fetch_listing ;;
    modify (fun sw => (set_proxy_list (fst sw) (united_states rows), snd sw)) ;;;
    now <- time_time ;;
    modify (fun sw => (set_last_rotate_time (fst sw) (Some now), snd sw))
  else ret tt.

(** [proxy in self.proxy_list] *)
Definition contains (proxy : ProxyEntry) (l : list ProxyEntry) : bool :=
  existsb (entry_eqb proxy) l.

(** [list.remove]: drops the first element equal to [proxy]. *)
Fixpoint list_remove (proxy : ProxyEntry) (l : list ProxyEntry)
  : list ProxyEntry :=
  match l with
  | [] => []
  | q :: rest => if entry_eqb q proxy then rest else q :: list_remove proxy rest
  end.

(** [Proxy._remove_proxy]; the event tells which of its two messages,
    "removed proxy from proxy list" or "proxy not in list", it printed. *)
Definition _remove_proxy (proxy : ProxyEntry) : M (Proxy * World) unit :=
  self <- gets fst ;;
  if negb (Nat.eqb (length (proxy_list self)) 0)
     && contains proxy (proxy_list self)
  then
    modify (fun sw =>
      (set_proxy_list (fst sw) (list_remove proxy (proxy_list (fst sw))),
       snd sw)) ;;;
    emit (Evicted proxy true)
  else emit (Evicted proxy false).

(** [Proxy.remove_bad_proxy] *)
Definition remove_bad_proxy (proxy : ProxyEntry) : M (Proxy * World) unit :=
  _remove_proxy proxy.

End Proxy.

(** ** utils/request_utils.py: get *)

(** [get(url, headers=..., proxies=..., timeout=2)] as [_make_request]
    calls it (no [rate_limiter] argument): one [requests.get], whose
    response is returned whatever its status, and whose exceptions
    propagate. *)
Definition get {S} (url : string) (proxies : option ProxyEntry)
  : M (S * World) Response :=
  fun sw =>
    match transport (snd sw) with
    | [] => (Unfinished, sw, [])
    | o :: t =>
        (match o with inl e => Raise e | inr r => Ret r end,
         (fst sw, set_transport (snd sw) t),
         [Sent url proxies o])
    end.

(** ** scraper.py: Scraper *)

Module Scraper.

Import RateLimiter Proxy.

Record Scraper := mkScraper {
  urls : list string;
  visited : list string;         (* declared, never written *)
  current_page : Z;
  current_counter : Z;
  depth : Z;
  proxy_obj : Proxy;
  _rate_limiter : APIRateLimiter
}.

Definition RATE_LIMIT : Z := 10.
Definition RATE_SECOND_DELTA : Z := 1.

(** [Scraper.__init__] *)
Definition init (depth ROTATE_PROXY_OFFSET : Z) : Scraper :=
  mkScraper [] [] 1 0 depth (Proxy.init ROTATE_PROXY_OFFSET)
            (RateLimiter.init (Some RATE_LIMIT) (Some RATE_SECOND_DELTA)).

Definition set_urls (s : Scraper) (u : list string) : Scraper :=
  mkScraper u (visited s) (current_page s) (current_counter s) (depth s)
            (proxy_obj s) (_rate_limiter s).
Definition set_current_page (s : Scraper) (p : Z) : Scraper :=
  mkScraper (urls s) (visited s) p (current_counter s) (depth s)
            (proxy_obj s) (_rate_limiter s).
Definition set_current_counter (s : Scraper) (c : Z) : Scraper :=
  mkScraper (urls s) (visited s) (current_page s) c (depth s)
            (proxy_obj s) (_rate_limiter s).
Definition set_proxy_obj (s : Scraper) (p : Proxy) : Scraper :=
  mkScraper (urls s) (visited s) (current_page s) (current_counter s) (depth s)
            p (_rate_limiter s).
Definition set_rate_limiter (s : Scraper) (l : APIRateLimiter) : Scraper :=
  mkScraper (urls s) (visited s) (current_page s) (current_counter s) (depth s)
            (proxy_obj s) l.

(** The value a Python function hands back where the code returns
    [True], [False] or falls off its end. *)
Inductive pyvalue : Type := PyTrue | PyFalse | PyNone.

(** [with self._rate_limiter:] entry; leaving the block does nothing. *)
Definition with_rate_limiter : M (Scraper * World) unit :=
  fun sw =>
    match __enter__ (_rate_limiter (fst sw)) (clock (snd sw)) with
    | None => (Unfinished, sw, [])
    | Some (l, c) =>
        (Ret tt, (set_rate_limiter (fst sw) l, set_clock (snd sw) c), [Entered])
    end.

(** [tenacity.retry(retry=retry_if_exception_type(Timeout),
    wait=wait_random_exponential(multiplier=0.5, max=10),
    stop=stop_after_attempt(n))] around [f]: a Timeout of an attempt is
    answered by another attempt after the wait, until [n] attempts have
    been made, when RetryError is raised. Any other exception, and any
    returned value, ends the call. The wait changes no state.
    The decorator is taken as its three arguments read; in the source the
    comma between [wait=...] and [stop=...] is missing and
    [stop_after_attempt] is not imported. *)
Fixpoint retry {S A} (attempts : nat) (f : M S A) : M S A :=
  match attempts with
  | O => raise RetryError
  | S n =>
      try_except f
        (fun e => match e with Timeout => true | _ => false end)
        (fun _ => retry n f)
  end.

Definition is_RequestException (e : exn) : bool :=
  match e with
  | Timeout | TooManyRedirects | RequestException _ => true
  | _ => false
  end.

(** [resp.text], AttributeError when [resp] is [None]. *)
Definition text_of {S} (resp : option Response) : M S string :=
  match resp with
  | Some r => ret (text r)
  | None => raise AttributeError
  end.

(** [str(n)] for an int *)
Definition str (n : Z) : string := NilZero.string_of_int (Z.to_int n).

Section Site.

(** What the engine takes from outside [src/]: [str.format] with one
    argument, the two BeautifulSoup queries the code makes on a parsed
    page, and the table [BASE_URL_MAP] of utils.configs. *)
Variable format : string -> string -> string.
Variable find_all_a_href : string -> list string.
    (* the href of every <a href=...> of the document, in order *)
Variable find_error_404 : string -> bool.
    (* soup.find(id="error-404") is not None *)
Variable BASE_URL_MAP : string -> option string.

(** The body of [Scraper._make_request], without its decorator. *)
Definition _make_request_body (url : string) (location : option string)
  (use_proxy : bool) : M (Scraper * World) (option Response) :=
  let current_url :=
    match location with                       (* if location: *)
    | Some l => if String.eqb l "" then url else format url l
    | None => url
    end in
  if use_proxy then
    zoom proxy_obj set_proxy_obj rotate_proxies ;;;
    pl <- gets (fun sw => proxy_list (proxy_obj (fst sw))) ;;
    proxy_choice <- random_choice pl ;;
    emit (Selected proxy_choice) ;;;
    try_except
      (with_rate_limiter ;;;
       r <- get current_url (Some proxy_choice) ;;
       ret (Some r))
      is_RequestException
      (fun e =>
         match e with
         | Timeout =>
             zoom proxy_obj set_proxy_obj (remove_bad_proxy proxy_choice) ;;;
             raise Timeout
         | _ => ret None      (* pass, or print(e): falls off the end *)
         end)
  else
    try_except
      (with_rate_limiter ;;;
       r <- get current_url None ;;
       ret (Some r))
      (fun _ => true)
      (fun _ => ret None).

(** [Scraper._make_request] *)
Definition _make_request (url : string) (location : option string)
  (use_proxy : bool) : M (Scraper * World) (option Response) :=
  retry 3 (_make_request_body url location use_proxy).

Definition detail_prefix : string := "/realestateandhomes-detail/".

(** The [for link in links] loop of [_collect_urls]. *)
Fixpoint collect_links (site : string) (links : list string)
  : M (Scraper * World) unit :=
  match links with
  | [] => ret tt
  | href :: rest =>
      self <- gets fst ;;
      if current_counter self >=? depth self then ret tt      (* break *)
      else if String.prefix detail_prefix href then
        match BASE_URL_MAP site with
        | None => raise KeyError
        | Some base =>
            modify (fun sw =>
              (set_urls (fst sw) (urls (fst sw) ++ [(base ++ href)%string]),
               snd sw)) ;;;
            (* self._increment_current_counter() *)
            modify (fun sw =>
              (set_current_counter (fst sw) (current_counter (fst sw) + 1),
               snd sw)) ;;;
            collect_links site rest
        end
      else collect_links site rest
  end.

(** [Scraper._collect_urls]; [soup] is the text of the parsed page. *)
Definition _collect_urls (soup : option string) (site : string)
  : M (Scraper * World) unit :=
  match soup with
  | None => raise AttributeError
  | Some doc => collect_links site (find_all_a_href doc)
  end.

(** [Scraper._next_page] *)
Definition _next_page (site location url : string)
  : M (Scraper * World) (option string) :=
  if String.eqb site "realtor.com" then
    page <- gets (fun sw => current_page (fst sw)) ;;
    let url' := (format url location ++ "/pg-" ++ str page)%string in
    resp <- _make_request url' None true ;;
    soup <- text_of resp ;;
    modify (fun sw =>
      (set_current_page (fst sw) (current_page (fst sw) + 1), snd sw)) ;;;
    if negb (find_error_404 soup) then ret (Some soup) else ret None
  else ret None.

(** [Scraper._request]. The body of its [while True] ends, on every path,
    in [return False], [break] or the [return True] that closes the loop
    body, so the loop never comes round again; after the [break] the
    function falls off its end. *)
Definition _request (site url location : string)
  : M (Scraper * World) pyvalue :=
  resp <- _make_request url (Some location) true ;;
  soup <- text_of resp ;;
  previous_url_count <- gets (fun sw => length (urls (fst sw))) ;;
  if String.eqb site "realtor.com" then
    _collect_urls (Some soup) site ;;;
    _ <- _next_page site location url ;;
    self <- gets fst ;;
    if (current_counter self <? depth self)
       && match resp with Some r => ok r | None => false end
       && (previous_url_count <? length (urls self))%nat
    then ret PyTrue
    else if (length (urls self) <=? previous_url_count)%nat then ret PyFalse
    else
      modify (fun sw => (set_current_counter (fst sw) 0, snd sw)) ;;;
      modify (fun sw => (set_current_page (fst sw) 2, snd sw)) ;;;
      ret PyNone
  else ret PyTrue.

(** The [for location in locations] loop of [navigate]; the value tells
    whether the loop ran to its end ([true]) or was left by [break]. *)
Fixpoint navigate_loop (site url : string) (locations : list string)
  : M (Scraper * World) bool :=
  match locations with
  | [] => ret true
  | location :: rest =>
      request_status <- _request site url location ;;
      match request_status with
      | PyFalse => ret false
      | _ => navigate_loop site url rest
      end
  end.

(** [Scraper.navigate] *)
Definition navigate (site url : string) (locations : list string)
  : M (Scraper * World) unit :=
  navigate_loop site url locations ;;;
  ret tt.

(** The [for url in self.urls] loop of [scrape]. *)
Fixpoint scrape_loop (todo : list string) (pages : list string)
  : M (Scraper * World) (list string) :=
  match todo with
  | [] => ret pages
  | url :: rest =>
      resp <- _make_request url None true ;;
      page <- text_of resp ;;
      scrape_loop rest (pages ++ [page])
  end.

(** [Scraper.scrape], up to the pages it hands to [_save_pages]. *)
Definition scrape : M (Scraper * World) (list string) :=
  todo <- gets (fun sw => urls (fst sw)) ;;
  scrape_loop todo [].

End Site.

End Scraper.

(** ** utils/string_utils.py *)

Module StringUtils.

(** [c.isspace()] for a character below U+0100: tab to carriage return,
    the four separators U+001C to U+001F, the space, U+0085 and U+00A0. *)
Definition isspace (c : ascii) : bool :=
  let n := nat_of_ascii c in
  ((9 <=? n) && (n <=? 13) || (28 <=? n) && (n <=? 32)
   || (n =? 133) || (n =? 160))%nat.

(** [s.split(sep)] for a separator of one character. *)
Fixpoint split (sep : ascii) (s : string) : list string :=
  match s with
  | EmptyString => [EmptyString]
  | String c rest =>
      if Ascii.eqb c sep then EmptyString :: split sep rest
      else match split sep rest with
           | head :: tail => String c head :: tail
           | [] => [String c EmptyString]
           end
  end.

(** [s.split()]: the maximal runs of characters that are not spaces. *)
Fixpoint split_whitespace (s : string) : list string :=
  match s with
  | EmptyString => []
  | String c rest =>
      if isspace c then split_whitespace rest
      else match rest with
           | EmptyString => [String c EmptyString]
           | String c' _ =>
               if isspace c' then String c EmptyString :: split_whitespace rest
               else match split_whitespace rest with
                    | head :: tail => String c head :: tail
                    | [] => [String c EmptyString]
                    end
           end
  end.

(** [s.lstrip()], [s.rstrip()], [s.strip()] *)
Fixpoint lstrip (s : string) : string :=
  match s with
  | EmptyString => EmptyString
  | String c rest => if isspace c then lstrip rest else s
  end.

Fixpoint rstrip (s : string) : string :=
  match s with
  | EmptyString => EmptyString
  | String c rest =>
      match rstrip rest with
      | EmptyString => if isspace c then EmptyString else String c EmptyString
      | kept => String c kept
      end
  end.

Definition strip (s : string) : string := rstrip (lstrip s).

Definition ValueError : exn := OtherException "ValueError".

(** [except ValueError] *)
Definition is_ValueError (e : exn) : bool :=
  match e with
  | OtherException cls => String.eqb cls "ValueError"
  | _ => false
  end.

(** [a, b = parts] *)
Definition unpack2 (parts : list string) : result (string * string) :=
  match parts with
  | [a; b] => Ret (a, b)
  | _ => Raise ValueError
  end.

(** The body of the [for] loop of [_realtor_city_format]. *)
Definition realtor_city (city : string) : result string :=
  match unpack2 (split "," city) with
  | Ret (city, state) =>
      let city := split_whitespace city in
      if (1 <? length city)%nat
      then Ret (String.concat "-" city ++ "_" ++ strip state)%string
      else match city with
           | first :: _ => Ret (first ++ "_" ++ strip state)%string
           | [] => Raise IndexError
           end
  | Raise e => Raise e
  | Unfinished => Unfinished
  end.

(** The [for] loop of [_realtor_city_format] inside its [try]: a
    ValueError of the body ends the loop and the function returns the
    list as it stands; any other exception leaves the function. *)
Fixpoint realtor_loop (city_list : list string)
  (formatted_city_list : list string) : result (list string) :=
  match city_list with
  | [] => Ret formatted_city_list
  | city :: rest =>
      match realtor_city city with
      | Ret formatted_city =>
          realtor_loop rest (formatted_city_list ++ [formatted_city])
      | Raise e =>
          if is_ValueError e then Ret formatted_city_list else Raise e
      | Unfinished => Unfinished
      end
  end.

(** [_realtor_city_format] *)
Definition _realtor_city_format (city_list : list string)
  : result (list string) :=
  realtor_loop city_list [].

(** The body of the [for] loop of [_loopnet_city_format]. *)
Definition loopnet_city (city : string) : result string :=
  match unpack2 (split "," city) with
  | Ret (city, state) =>
      let city := split_whitespace city in
      if (1 <? length city)%nat
      then Ret (String.concat "-" city ++ "-" ++ strip state)%string
      else match city with
           | first :: _ => Ret (first ++ "-" ++ strip state)%string
           | [] => Raise IndexError
           end
  | Raise e => Raise e
  | Unfinished => Unfinished
  end.

Fixpoint loopnet_loop (city_list : list string)
  (formatted_city_list : list string) : result (list string) :=
  match city_list with
  | [] => Ret formatted_city_list
  | city :: rest =>
      match loopnet_city city with
      | Ret formatted_city =>
          loopnet_loop rest (formatted_city_list ++ [formatted_city])
      | Raise e =>
          if is_ValueError e then Ret formatted_city_list else Raise e
      | Unfinished => Unfinished
      end
  end.

(** [_loopnet_city_format] *)
Definition _loopnet_city_format (city_list : list string)
  : result (list string) :=
  loopnet_loop city_list [].

(** [format_cities]; for any other domain the function falls off its end
    and returns [None]. *)
Definition format_cities (domain : string) (city_list : list string)
  : result (option (list string)) :=
  if String.eqb domain "realtor.com" then
    match _realtor_city_format city_list with
    | Ret l => Ret (Some l)
    | Raise e => Raise e
    | Unfinished => Unfinished
    end
  else if String.eqb domain "loopnet.com" then
    match _loopnet_city_format city_list with
    | Ret l => Ret (Some l)
    | Raise e => Raise e
    | Unfinished => Unfinished
    end
  else Ret None.

End StringUtils.

(** ** utils/request_utils.py: flatten_dictionary *)

Module Flatten.

#[local] Set Warnings "-register-all".

(** The values [flatten_dictionary] tells apart: a dict (its items in
    insertion order, keys being strings), a list, anything else. *)
Inductive value : Type :=
| Atom (repr : string)
| Dict (items : list (string * value))
| List (elems : list value).

(** A dict under construction, in insertion order. *)
Definition dict : Type := list (string * value).

(** [d[k] = v]: a key already present keeps its place. *)
Fixpoint setitem (d : dict) (k : string) (v : value) : dict :=
  match d with
  | [] => [(k, v)]
  | (k', v') :: rest =>
      if String.eqb k' k then (k', v) :: rest else (k', v') :: setitem rest k v
  end.

(** [d.get(k)] *)
Fixpoint getitem (d : dict) (k : string) : option value :=
  match d with
  | [] => None
  | (k', v') :: rest => if String.eqb k' k then Some v' else getitem rest k
  end.

(** [f"{parent_key}{separator}{k}" if parent_key else k] *)
Definition prefixed (parent_key : option string) (separator k : string)
  : string :=
  match parent_key with
  | Some p => if String.eqb p "" then k else (p ++ separator ++ k)%string
  | None => k
  end.

Section Loops.

(** The function itself, for the nested calls. *)
Variable flatten_dictionary :
  value -> dict -> option string -> string -> result dict.

(** [for i, r in enumerate(v)], under the key [k]; the nested calls pass
    no separator, so take the default ["_"]. *)
Fixpoint for_elems (k : string) (elems : list value) (i : nat)
  (dict_out : dict) : result dict :=
  match elems with
  | [] => Ret dict_out
  | r :: more =>
      let parent :=
        if (i <=? 1)%nat then k
        else (k ++ "_" ++ Scraper.str (Z.of_nat i))%string in
      match flatten_dictionary r dict_out (Some parent) "_" with
      | Ret dict_out => for_elems k more (S i) dict_out
      | other => other
      end
  end.

(** [for k, v in in_dict.items()] *)
Fixpoint for_items (parent_key : option string) (separator : string)
  (items : list (string * value)) (dict_out : dict) : result dict :=
  match items with
  | [] => Ret dict_out
  | (k, v) :: rest =>
      let k := prefixed parent_key separator k in
      match v with
      | Dict _ =>
          match flatten_dictionary v dict_out (Some k) "_" with
          | Ret dict_out =>
              for_items parent_key separator rest (setitem dict_out k v)
          | other => other
          end
      | List elems =>
          let k := prefixed parent_key separator k in
          match for_elems k elems 0%nat dict_out with
          | Ret dict_out =>
              for_items parent_key separator rest (setitem dict_out k v)
          | other => other
          end
      | Atom _ => for_items parent_key separator rest (setitem dict_out k v)
      end
  end.

End Loops.

(** [flatten_dictionary(in_dict, dict_out, parent_key, separator)], with
    [dict_out] the dict all the nested calls write to; [in_dict.items()]
    on a value that is not a dict is an AttributeError. *)
Fixpoint flatten_dictionary (in_dict : value) (dict_out : dict)
  (parent_key : option string) (separator : string) {struct in_dict}
  : result dict :=
  match in_dict with
  | Dict items =>
      for_items flatten_dictionary parent_key separator items dict_out
  | _ => Raise AttributeError
  end.

(** [flatten_dictionary(in_dict)] *)
Definition flatten (in_dict : value) : result dict :=
  flatten_dictionary in_dict [] None "_".

End Flatten.

(** ** scraper.py: what Scraper writes to files *)

Module ScraperFiles.

(** [Scraper.save_urls]: the text written to [urls.txt], one
    [f"{url}\n"] per entry of the frontier. *)
Fixpoint written_lines (urls : list string) : string :=
  match urls with
  | [] => EmptyString
  | url :: rest => (url ++ String "010" EmptyString ++ written_lines rest)%string
  end.

Definition save_urls (self : Scraper.Scraper) : string :=
  written_lines (Scraper.urls self).

(** ["real_estate_listing_data_" + TODAY + "_" + str(ind+1) + ".html"] *)
Definition file_name (TODAY : string) (ind : nat) : string :=
  ("real_estate_listing_data_" ++ TODAY ++ "_"
   ++ Scraper.str (Z.of_nat ind + 1) ++ ".html")%string.

(** The [for ind, page in enumerate(pages)] loop of [_save_pages], from
    index [ind] on: the files written, each with its content, in order. *)
Fixpoint save_from (TODAY : string) (ind : nat) (pages : list string)
  : list (string * string) :=
  match pages with
  | [] => []
  | page :: rest => (file_name TODAY ind, page) :: save_from TODAY (S ind) rest
  end.

(** [Scraper._save_pages]; [TODAY] is the date stamp of utils.configs,
    and the names are those of the files inside the data folder. *)
Definition _save_pages (TODAY : string) (pages : list string)
  : list (string * string) :=
  save_from TODAY 0 pages.

End ScraperFiles.

(** ** Vocabulary of the properties *)

(** Readings of a clock that never goes back, none earlier than [lo]. *)
Fixpoint nondecreasing_from (lo : Z) (clock : list Z) : bool :=
  match clock with
  | [] => true
  | t :: c => (lo <=? t) && nondecreasing_from t c
  end.

Fixpoint sorted (l : list Z) : Prop :=
  match l with
  | [] => True
  | x :: r => Forall (Z.le x) r /\ sorted r
  end.

(** [h] lies in the window of length [delta] that ends at [T]. *)
Definition in_window (delta T h : Z) : bool := (T - delta <=? h) && (h <=? T).

(** [h] is still within [delta] of [now]. *)
Definition fresh (delta now h : Z) : bool := now - h <=? delta.

(** [reached rate_limit delta l hist lo]: the limiter [l] is what a
    limiter built with [rate_limit] and [delta] has become after some
    sequence of [limit] calls, under a clock that never goes back; [hist]
    lists the timestamps those calls recorded, in order, and [lo] is the
    last reading taken. *)
Inductive reached (rate_limit delta : Z)
  : RateLimiter.APIRateLimiter -> list Z -> Z -> Prop :=
| reached_init lo :
    reached rate_limit delta
      (RateLimiter.init (Some rate_limit) (Some delta)) [] lo
| reached_limit l hist lo clock l' clock' retained t :
    reached rate_limit delta l hist lo ->
    nondecreasing_from lo clock = true ->
    RateLimiter.limit l clock = Some (l', clock') ->
    RateLimiter._request_times l' = retained ++ [t] ->
    reached rate_limit delta l' (hist ++ [t]) t.

(** The invariant every sequence of admissions keeps. *)
Definition window_inv (rate_limit delta : Z) (l : RateLimiter.APIRateLimiter)
  (hist : list Z) (lo : Z) : Prop :=
  RateLimiter._rate_limit l = Some rate_limit /\
  RateLimiter._rate_second_delta l = Some delta /\
  sorted hist /\
  Forall (fun h => h <= lo) hist /\
  (exists now, now <= lo /\
               RateLimiter._request_times l = filter (fresh delta now) hist) /\
  (forall T, Z.of_nat (length (filter (in_window delta T) hist)) <= rate_limit).

(** How often the pool holds [proxy]. *)
Definition occurrences (proxy : ProxyEntry) (l : list ProxyEntry) : nat :=
  length (filter (entry_eqb proxy) l).

(** The refresh test of [rotate_proxies] at clock reading [now]: the pool
    was never refreshed, or [offset] seconds or more have passed since the
    last refresh, or the pool has fewer than 5 entries. *)
Definition refresh_due (pool : Proxy.Proxy) (now : Z) : Prop :=
  Proxy.last_rotate_time pool = None \/
  (exists last, Proxy.last_rotate_time pool = Some last /\
                Proxy.offset pool <= now - last) \/
  (length (Proxy.proxy_list pool) < 5)%nat.

(** The outcomes of the GETs among the events, in order. *)
Fixpoint outcomes (evs : list event) : list (exn + Response) :=
  match evs with
  | [] => []
  | Sent _ _ o :: rest => o :: outcomes rest
  | _ :: rest => outcomes rest
  end.

(** The evictions among the events, in order. *)
Fixpoint evictions (evs : list event) : list (ProxyEntry * bool) :=
  match evs with
  | [] => []
  | Evicted p removed :: rest => (p, removed) :: evictions rest
  | _ :: rest => evictions rest
  end.

(** The ways one run of the body of [_make_request] through a proxy can
    end, with the events it leaves: before any GET was issued, or after
    one GET to [u] through the selected proxy. *)
Inductive attempt_shape (u : string)
  : result (option Response) -> list event -> Prop :=
| attempt_not_sent res evs :
    outcomes evs = [] -> evictions evs = [] ->
    (forall r, res <> Ret r) ->
    attempt_shape u res evs
| attempt_response p r :
    attempt_shape u (Ret (Some r))
      [Selected p; Entered; Sent u (Some p) (inr r)]
| attempt_timeout p :
    attempt_shape u (Raise Timeout)
      [Selected p; Entered; Sent u (Some p) (inl Timeout); Evicted p true]
| attempt_swallowed p e :
    Scraper.is_RequestException e = true -> e <> Timeout ->
    attempt_shape u (Ret None)
      [Selected p; Entered; Sent u (Some p) (inl e)]
| attempt_propagated p e :
    Scraper.is_RequestException e = false ->
    attempt_shape u (Raise e)
      [Selected p; Entered; Sent u (Some p) (inl e)].

(** The ways [retry n] around that body can end. *)
Inductive retry_shape (u : string)
  : nat -> result (option Response) -> list event -> Prop :=
| retry_exhausted :
    retry_shape u 0 (Raise RetryError) []
| retry_done n res evs :
    attempt_shape u res evs -> res <> Raise Timeout ->
    retry_shape u (S n) res evs
| retry_again n evs1 res evs2 :
    attempt_shape u (Raise Timeout) evs1 ->
    retry_shape u n res evs2 ->
    retry_shape u (S n) res (evs1 ++ evs2).

(** The request layer leaves the crawl cursor and the frontier alone. *)
Definition cursor_kept (s s' : Scraper.Scraper) : Prop :=
  Scraper.urls s' = Scraper.urls s /\
  Scraper.visited s' = Scraper.visited s /\
  Scraper.current_page s' = Scraper.current_page s /\
  Scraper.current_counter s' = Scraper.current_counter s /\
  Scraper.depth s' = Scraper.depth s.

(** [current_url] of [_make_request] *)
Definition current_url (format : string -> string -> string)
  (url : string) (location : option string) : string :=
  match location with
  | Some l => if String.eqb l "" then url else format url l
  | None => url
  end.

(** The hrefs of a page that [_collect_urls] takes for detail pages. *)
Definition detail_links (find_all_a_href : string -> list string)
  (doc : string) : list string :=
  filter (String.prefix Scraper.detail_prefix) (find_all_a_href doc).

(** How many links the depth budget still allows. *)
Definition budget (s : Scraper.Scraper) : nat :=
  Z.to_nat (Scraper.depth s - Scraper.current_counter s).

(** The scraper after [_collect_urls] has gone through a page whose
    detail links are [links], the base URL of the site being [base]. *)
Definition collect (base : string) (links : list string) (s : Scraper.Scraper)
  : Scraper.Scraper :=
  let new := map (String.append base) (firstn (budget s) links) in
  Scraper.set_current_counter
    (Scraper.set_urls s (Scraper.urls s ++ new))
    (Scraper.current_counter s + Z.of_nat (length new)).

(** The depth-limit exit of [_request]: counter to 0, page to 2. *)
Definition reset_cursor (s : Scraper.Scraper) : Scraper.Scraper :=
  Scraper.set_current_page (Scraper.set_current_counter s 0) 2.

(** The URLs of the GETs of a run, in order. *)
Definition requested (evs : list event) : list string :=
  flat_map (fun ev => match ev with
                      | Sent u _ _ => [u]
                      | _ => []
                      end) evs.

(** ** Vocabulary of the further properties *)

(** The proxies of the GETs that timed out, in order. *)
Definition timed_out_proxies (evs : list event) : list ProxyEntry :=
  flat_map (fun ev => match ev with
                      | Sent _ (Some p) (inl Timeout) => [p]
                      | _ => []
                      end) evs.


(** [u] is the base URL of [site] followed by a detail-page href. *)
Definition detail_url (BASE_URL_MAP : string -> option string) (site u : string)
  : Prop :=
  exists base href,
    BASE_URL_MAP site = Some base /\
    String.prefix Scraper.detail_prefix href = true /\
    u = (base ++ href)%string.

(** From [s] to [s'] the frontier has only been extended, by detail URLs
    of [site], the counter has moved with it, and the depth budget is
    the same. *)
Definition grows (BASE_URL_MAP : string -> option string) (site : string)
  (s s' : Scraper.Scraper) : Prop :=
  exists added,
    Scraper.urls s' = Scraper.urls s ++ added /\
    Forall (detail_url BASE_URL_MAP site) added /\
    Scraper.depth s' = Scraper.depth s.

(** Whatever the start and however it ends, [m] takes the scraper to a
    state related to the start by [R]. *)
Definition keeps {A} (R : Scraper.Scraper -> Scraper.Scraper -> Prop)
  (m : M (Scraper.Scraper * World) A) : Prop :=
  forall sw, R (fst sw) (fst (snd (fst (m sw)))).

(** Every character of [s] passes [p]. *)
Fixpoint all_chars (p : ascii -> bool) (s : string) : bool :=
  match s with
  | EmptyString => true
  | String c rest => p c && all_chars p rest
  end.

(** How often [c] occurs in [s]. *)
Fixpoint count_char (c : ascii) (s : string) : nat :=
  match s with
  | EmptyString => 0
  | String c' rest => (if Ascii.eqb c' c then 1 else 0) + count_char c rest
  end.

Definition blank (s : string) : bool := all_chars StringUtils.isspace s.

(** A word: not empty, no space in it. *)
Definition word (s : string) : Prop :=
  s <> EmptyString /\
  all_chars (fun c => negb (StringUtils.isspace c)) s = true.

(** [pad1 ++ w1 ++ pad2 ++ w2 ++ ... ++ tail] *)
Fixpoint layout (padded_words : list (string * string)) (tail : string)
  : string :=
  match padded_words with
  | [] => tail
  | (pad, w) :: rest => (pad ++ w ++ layout rest tail)%string
  end.

(** The words of a layout are words, what lies between them is blank,
    and from the second word on not empty. *)
Definition well_spaced (padded_words : list (string * string)) (tail : string)
  : Prop :=
  Forall (fun pw => blank (fst pw) = true /\ word (snd pw)) padded_words /\
  Forall (fun pw => fst pw <> EmptyString) (tl padded_words) /\
  blank tail = true.

(** The first and the last character of [s], if any, are not spaces. *)
Definition starts_clean (s : string) : bool :=
  match s with
  | EmptyString => true
  | String c _ => negb (StringUtils.isspace c)
  end.

Fixpoint ends_clean (s : string) : bool :=
  match s with
  | EmptyString => true
  | String c EmptyString => negb (StringUtils.isspace c)
  | String _ rest => ends_clean rest
  end.

(** [s] holds no comma. *)
Definition comma_free (s : string) : bool :=
  all_chars (fun c => negb (Ascii.eqb c ",")) s.

(** The entries of the two formatters correspond: the same city and
    state, joined by "_" by the one and by "-" by the other. *)
Definition same_city (realtor loopnet : string) : Prop :=
  exists city state,
    realtor = (city ++ "_" ++ state)%string /\
    loopnet = (city ++ "-" ++ state)%string.

(** [isinstance(v, dict)] *)
Definition is_dict (v : Flatten.value) : bool :=
  match v with Flatten.Dict _ => true | _ => false end.

(** Every element of every list inside [v] is a dict. *)
Fixpoint lists_hold_dicts (v : Flatten.value) : bool :=
  match v with
  | Flatten.Atom _ => true
  | Flatten.Dict items => forallb (fun kv => lists_hold_dicts (snd kv)) items
  | Flatten.List elems =>
      forallb (fun r => is_dict r && lists_hold_dicts r) elems
  end.

(** Neither a dict nor a list. *)
Definition is_atom (v : Flatten.value) : bool :=
  match v with Flatten.Atom _ => true | _ => false end.

(** Induction on a value through the items and elements it holds. *)
Section ValueInduction.

Import Flatten.

Variable P : value -> Prop.
Hypothesis P_atom : forall repr, P (Atom repr).
Hypothesis P_dict :
  forall items, Forall (fun kv => P (snd kv)) items -> P (Dict items).
Hypothesis P_list : forall elems, Forall P elems -> P (List elems).

Fixpoint value_nested_ind (v : value) : P v :=
  match v with
  | Atom repr => P_atom repr
  | Dict items =>
      P_dict items
        ((fix each (items : list (string * value))
            : Forall (fun kv => P (snd kv)) items :=
            match items with
            | [] => Forall_nil _
            | kv :: rest => Forall_cons kv (value_nested_ind (snd kv)) (each rest)
            end) items)
  | List elems =>
      P_list elems
        ((fix each (elems : list value) : Forall P elems :=
            match elems with
            | [] => Forall_nil _
            | r :: rest => Forall_cons r (value_nested_ind r) (each rest)
            end) elems)
  end.

End ValueInduction.

(** How a call of [flatten_dictionary] on [v] ends. *)
Definition ends_as (v : Flatten.value) (r : result Flatten.dict) : Prop :=
  match r with
  | Ret _ => is_dict v && lists_hold_dicts v = true
  | Raise e => e = AttributeError /\ is_dict v && lists_hold_dicts v = false
  | Unfinished => False
  end.

(** The same for a loop over values that are all fine, or not. *)
Definition loop_ends_as (all_fine : bool) (r : result Flatten.dict) : Prop :=
  match r with
  | Ret _ => all_fine = true
  | Raise e => e = AttributeError /\ all_fine = false
  | Unfinished => False
  end.

(** [ends_as] for [v], and for the loop over its elements if it is a
    list. *)
Definition ends_well (v : Flatten.value) : Prop :=
  (forall d p sep, ends_as v (Flatten.flatten_dictionary v d p sep)) /\
  match v with
  | Flatten.List elems =>
      forall k i d,
        loop_ends_as (forallb (fun r => is_dict r && lists_hold_dicts r) elems)
                     (Flatten.for_elems Flatten.flatten_dictionary k elems i d)
  | _ => True
  end.

(** [k] is a key of [d]. *)
Definition has_key (d : Flatten.dict) (k : string) : Prop :=
  Flatten.getitem d k <> None.

(** Keys are never removed, by a call on [v] or by the loop over its
    elements. *)
Definition keeps_keys (v : Flatten.value) : Prop :=
  (forall d p sep d',
     Flatten.flatten_dictionary v d p sep = Ret d' ->
     forall k, has_key d k -> has_key d' k) /\
  match v with
  | Flatten.List elems =>
      forall key i d d',
        Flatten.for_elems Flatten.flatten_dictionary key elems i d = Ret d' ->
        forall k, has_key d k -> has_key d' k
  | _ => True
  end.

(** Outside the namespace [ns], [d'] is [d]. *)
Definition same_outside (ns : string) (d d' : Flatten.dict) : Prop :=
  forall k, String.prefix ns k = false ->
            Flatten.getitem d' k = Flatten.getitem d k.

(** A call under a parent key writes inside the parent's namespace. *)
Definition stays_inside (v : Flatten.value) : Prop :=
  (forall d p sep d',
     p <> EmptyString ->
     Flatten.flatten_dictionary v d (Some p) sep = Ret d' ->
     same_outside (p ++ sep) d d') /\
  match v with
  | Flatten.List elems =>
      forall key i d d',
        key <> EmptyString ->
        Flatten.for_elems Flatten.flatten_dictionary key elems i d = Ret d' ->
        same_outside (key ++ "_") d d'
  | _ => True
  end.

(** ** Concrete scenarios *)

Module Scenario.

(** A listing with seven United States rows and one other. *)
Definition rows : list Row :=
  mkRow "10.9.9.9" 80 "France"
  :: map (fun n => mkRow "10.0.0.1" n "United States") [1; 2; 3; 4; 5; 6; 7].

(** A listing without any United States row. *)
Definition foreign_rows : list Row :=
  [mkRow "10.9.9.9" 80 "France"; mkRow "10.8.8.8" 3128 "Canada"].

Definition format (url location : string) : string :=
  (url ++ location)%string.

Definition page : Response := mkResponse true "<html/>".


(** The target answers the only GET with the exception [e]. *)
Definition failing (e : exn) : World :=
  mkWorld [100; 100; 101; 101] [inr rows] [0%nat] [inl e].

(** The listing site has no United States proxy to offer. *)
Definition no_proxies : World :=
  mkWorld [100; 100; 101; 101] [inr foreign_rows] [0%nat] [inr page].

(** A stand-in for the parser: a page is the list of its hrefs, one per
    line, and the page of the not-found marker starts with "error-404". *)
Fixpoint lines_from (acc : string) (doc : string) : list string :=
  match doc with
  | EmptyString => [acc]
  | String c rest =>
      if Ascii.eqb c "010"%char then acc :: lines_from "" rest
      else lines_from (acc ++ String c "")%string rest
  end.

Definition find_all_a_href (doc : string) : list string := lines_from "" doc.

Definition find_error_404 (doc : string) : bool := String.prefix "error-404" doc.

Definition BASE_URL_MAP (site : string) : option string :=
  if String.eqb site "realtor.com" then Some "https://www.realtor.com"%string
  else None.

(** A page with [n] detail links and one other link. *)
Definition listing_page (n : nat) : Response :=
  mkResponse true
    (String.concat (String "010" "")
       ("/about"%string
        :: map (fun i => ("/realestateandhomes-detail/" ++ Scraper.str (Z.of_nat i))%string)
               (seq 1 n))).

(** Two fetches per location (the page and the next page), the clock
    standing still. *)
Definition crawl (pages : list Response) : World :=
  mkWorld (repeat 100 (4 + 3 * length pages)) [inr rows]
          (repeat 0%nat (length pages)) (map inr pages).

End Scenario.

(** ** Proof steps of the request layer *)

(** Close a branch of the body: name the final state, then leave the
    shape of the attempt to prove. *)
Ltac shape_done H :=
  inversion H; subst;
  split; [ | repeat split; reflexivity ].

(** The same for a branch that ended before any GET. *)
Ltac not_sent H :=
  shape_done H;
  apply attempt_not_sent; [reflexivity | reflexivity | discriminate].

(** * Properties *)

(** ** The rate limiter *)

Section RateLimiterFacts.

Import RateLimiter.

Variables rate_limit delta : Z.

Lemma popleft_expired_split now times :
  exists dropped,
    times = dropped ++ popleft_expired now delta times /\
    Forall (fun d => d + delta < now) dropped.
Proof.
  induction times as [|t rest IH]; simpl.
  - exists []. split; [reflexivity | constructor].
  - destruct (Z.gtb_spec (now - t) delta) as [Hexp|Hkeep].
    + destruct IH as [dropped [Heq Hall]].
      exists (t :: dropped). split.
      * simpl. f_equal. exact Heq.
      * constructor; [lia | exact Hall].
    + exists []. split; [reflexivity | constructor].
Qed.

Lemma popleft_expired_sorted now times :
  sorted times -> sorted (popleft_expired now delta times).
Proof.
  induction times as [|t rest IH]; simpl; intros Hs; [exact I|].
  destruct (now - t >? delta); [apply IH; tauto | exact Hs].
Qed.

Lemma filter_fresh_all now l :
  Forall (fun h => now - h <= delta) l -> filter (fresh delta now) l = l.
Proof.
  induction 1 as [|h l Hh _ IH]; simpl; [reflexivity|].
  unfold fresh at 1. destruct (Z.leb_spec (now - h) delta); [| lia].
  f_equal. exact IH.
Qed.

(** On a sorted deque the trimming keeps exactly the fresh timestamps. *)
Lemma popleft_expired_filter now times :
  sorted times ->
  popleft_expired now delta times = filter (fresh delta now) times.
Proof.
  induction times as [|t rest IH]; intros Hs; [reflexivity|].
  cbn [popleft_expired]. destruct Hs as [Hle Hs].
  destruct (Z.gtb_spec (now - t) delta) as [Hexp|Hkeep].
  - cbn [filter]. unfold fresh at 1.
    destruct (Z.leb_spec (now - t) delta); [lia | apply IH; exact Hs].
  - symmetry. apply filter_fresh_all. constructor; [exact Hkeep|].
    eapply Forall_impl; [| exact Hle]. simpl. intros; lia.
Qed.

Lemma filter_fresh_later now now' l :
  now <= now' ->
  filter (fresh delta now') (filter (fresh delta now) l)
  = filter (fresh delta now') l.
Proof.
  intros Hle. induction l as [|h l IH]; simpl; [reflexivity|].
  destruct (fresh delta now h) eqn:E1; simpl;
    destruct (fresh delta now' h) eqn:E2; rewrite ?IH; try reflexivity.
  unfold fresh in E1, E2. apply Z.leb_le in E2. apply Z.leb_gt in E1. lia.
Qed.

Lemma filter_sorted (f : Z -> bool) l : sorted l -> sorted (filter f l).
Proof.
  induction l as [|h l IH]; simpl; intros Hs; [exact I|].
  destruct Hs as [Hle Hs]. destruct (f h); simpl; [split|]; auto.
  rewrite Forall_forall in *. intros x Hx.
  apply filter_In in Hx. apply Hle. tauto.
Qed.

(** What the polling loop has established when it breaks. *)
Lemma poll_break clock : forall lo times now times' clock',
  nondecreasing_from lo clock = true ->
  sorted times ->
  poll rate_limit delta clock times = Some (now, times', clock') ->
  lo <= now /\ nondecreasing_from now clock' = true /\
  times' = filter (fresh delta now) times /\
  Z.of_nat (length times') < rate_limit.
Proof.
  induction clock as [|r clock IH]; intros lo times now times' clock' Hmono Hs Hp;
    [discriminate|].
  cbn [poll] in Hp. cbn [nondecreasing_from] in Hmono.
  apply andb_prop in Hmono. destruct Hmono as [Hlo Hmono].
  apply Z.leb_le in Hlo.
  destruct (Z.ltb_spec (Z.of_nat (length (popleft_expired r delta times)))
              rate_limit) as [Hroom|Hfull].
  - inversion Hp; subst. repeat split; auto.
    apply popleft_expired_filter; exact Hs.
  - specialize (IH r _ _ _ _ Hmono (popleft_expired_sorted r _ Hs) Hp).
    destruct IH as [Hle [Hm [Heq Hlen]]].
    repeat split; auto; [lia|].
    rewrite Heq, popleft_expired_filter by exact Hs.
    apply filter_fresh_later; exact Hle.
Qed.

Hypothesis rate_limit_pos : 0 < rate_limit.
Hypothesis delta_pos : 0 < delta.

Lemma limit_enabled l :
  _rate_limit l = Some rate_limit -> _rate_second_delta l = Some delta ->
  truthy (_rate_limit l) && truthy (_rate_second_delta l) = true.
Proof.
  intros -> ->. simpl.
  destruct (Z.eqb_spec rate_limit 0), (Z.eqb_spec delta 0); simpl; lia || reflexivity.
Qed.

(** One call of [limit] on a limiter whose deque is sorted. *)
Lemma limit_step l lo clock l' clock' :
  _rate_limit l = Some rate_limit -> _rate_second_delta l = Some delta ->
  sorted (_request_times l) ->
  nondecreasing_from lo clock = true ->
  limit l clock = Some (l', clock') ->
  exists now t,
    lo <= now <= t /\
    l' = set_request_times l (filter (fresh delta now) (_request_times l) ++ [t]) /\
    Z.of_nat (length (filter (fresh delta now) (_request_times l))) < rate_limit.
Proof.
  intros Hrl Hd Hs Hmono Hlim. unfold limit in Hlim.
  rewrite (limit_enabled l Hrl Hd), Hrl, Hd in Hlim.
  destruct (poll rate_limit delta clock (_request_times l))
    as [[[now times'] c]|] eqn:Hp; [| discriminate].
  destruct c as [|t c]; [discriminate|]. inversion Hlim; subst l' clock'.
  destruct (poll_break _ _ _ _ _ _ Hmono Hs Hp) as [Hlo [Hm [Heq Hlen]]].
  cbn [nondecreasing_from] in Hm. apply andb_prop in Hm.
  destruct Hm as [Hnt _]. apply Z.leb_le in Hnt.
  exists now, t. subst times'. repeat split; auto.
Qed.

Lemma length_filter_le (f g : Z -> bool) l :
  (forall h, In h l -> f h = true -> g h = true) ->
  (length (filter f l) <= length (filter g l))%nat.
Proof.
  induction l as [|h l IH]; intros Himp; simpl; [lia|].
  assert (IH' : (length (filter f l) <= length (filter g l))%nat).
  { apply IH. intros x Hx. apply Himp. right. exact Hx. }
  destruct (f h) eqn:Ef.
  - rewrite (Himp h (or_introl eq_refl) Ef). simpl. lia.
  - destruct (g h); simpl; lia.
Qed.

Lemma sorted_snoc l t :
  sorted l -> Forall (fun h => h <= t) l -> sorted (l ++ [t]).
Proof.
  induction l as [|h l IH]; simpl; intros Hs Hall.
  - split; [constructor | exact I].
  - destruct Hs as [Hle Hs]. inversion Hall; subst. split.
    + apply Forall_app. split; [exact Hle | constructor; [lia | constructor]].
    + apply IH; assumption.
Qed.

Lemma reached_window_inv l hist lo :
  reached rate_limit delta l hist lo -> window_inv rate_limit delta l hist lo.
Proof.
  induction 1 as [lo | l hist lo clock l' clock' retained t _ IH Hmono Hlim Htimes].
  - unfold window_inv. simpl. repeat split; auto.
    + exists lo. split; [lia | reflexivity].
    + intros T. simpl. lia.
  - destruct IH as [Hrl [Hd [Hs [Hle [[now0 [Hnow0 Heq]] Hwin]]]]].
    assert (Hst : sorted (_request_times l)).
    { rewrite Heq. apply filter_sorted. exact Hs. }
    destruct (limit_step l lo clock l' clock' Hrl Hd Hst Hmono Hlim)
      as [now [t' [[Hlo Hnt] [Hl' Hlen]]]].
    rewrite Heq, filter_fresh_later in Hl', Hlen by lia.
    subst l'. simpl in Htimes.
    apply app_inj_tail in Htimes. destruct Htimes as [Hret Ht]. subst t'.
    unfold window_inv. simpl.
    assert (Hle' : Forall (fun h => h <= t) hist).
    { eapply Forall_impl; [| exact Hle]. simpl. intros; lia. }
    repeat split; auto.
    + apply sorted_snoc; assumption.
    + apply Forall_app. split; [exact Hle' | constructor; [lia | constructor]].
    + exists now. split; [lia|].
      rewrite filter_app. simpl. unfold fresh at 3.
      destruct (Z.leb_spec (now - t) delta); [reflexivity | lia].
    + intros T. rewrite filter_app, length_app. simpl.
      destruct (in_window delta T t) eqn:Ew; simpl; [| specialize (Hwin T); lia].
      assert (Hin : (length (filter (in_window delta T) hist)
                     <= length (filter (fresh delta now) hist))%nat).
      { apply length_filter_le. intros h Hh Hw.
        unfold in_window in Hw, Ew. unfold fresh.
        apply andb_prop in Hw. apply andb_prop in Ew.
        destruct Hw as [Hw1 _]. destruct Ew as [_ Ew2].
        apply Z.leb_le in Hw1. apply Z.leb_le in Ew2. apply Z.leb_le. lia. }
      lia.
Qed.

(** The polling loop breaks once the clock shows a reading by which
    every recorded timestamp has expired. *)
Lemma poll_finishes clock : forall times pre now rest,
  clock = pre ++ now :: rest ->
  Forall (fun h => h + delta < now) times ->
  exists now' times' pre',
    poll rate_limit delta clock times = Some (now', times', pre' ++ rest).
Proof.
  induction clock as [|r clock IH]; intros times pre now rest Hc Hexp.
  - destruct pre; discriminate.
  - cbn [poll].
    destruct (Z.ltb_spec (Z.of_nat (length (popleft_expired r delta times)))
                rate_limit) as [Hroom|Hfull].
    + destruct pre as [|p pre]; simpl in Hc; inversion Hc; subst.
      * exists now, (popleft_expired now delta times), []. reflexivity.
      * exists p, (popleft_expired p delta times), (pre ++ [now]).
        rewrite <- app_assoc. reflexivity.
    + destruct pre as [|p pre]; simpl in Hc; inversion Hc; subst.
      * exfalso. clear IH Hc.
        assert (Hnil : popleft_expired now delta times = []).
        { clear Hfull. induction Hexp as [|h l Hh _ IHl]; simpl; [reflexivity|].
          destruct (Z.gtb_spec (now - h) delta); [exact IHl | lia]. }
        rewrite Hnil in Hfull. simpl in Hfull. lia.
      * apply (IH _ pre now rest eq_refl).
        destruct (popleft_expired_split p times) as [dropped [Heq _]].
        rewrite Heq in Hexp. apply Forall_app in Hexp. tauto.
Qed.

(** [limit] returns: enough readings give the admission. *)
Lemma limit_finishes l pre now t rest :
  _rate_limit l = Some rate_limit -> _rate_second_delta l = Some delta ->
  Forall (fun h => h + delta < now) (_request_times l) ->
  exists l' clock', limit l (pre ++ now :: t :: rest) = Some (l', clock').
Proof.
  intros Hrl Hd Hexp. unfold limit.
  rewrite (limit_enabled l Hrl Hd), Hrl, Hd.
  destruct (poll_finishes _ _ pre now (t :: rest) eq_refl Hexp)
    as [now' [times' [pre' Hp]]].
  rewrite Hp. destruct pre' as [|p pre']; simpl; eauto.
Qed.

End RateLimiterFacts.

(** C1. On a limiter built with positive [rate_limit] and
    [rate_second_delta], after any sequence of [limit] calls no window of
    [rate_second_delta] seconds holds more than [rate_limit] recorded
    admissions; and whenever a further call appends a timestamp [t], the
    deque then holds exactly the recorded timestamps still within
    [rate_second_delta] of the [now] of the last poll, fewer than
    [rate_limit] of them. *)
Theorem limit_window_bound (rate_limit delta : Z) l hist lo :
  0 < rate_limit -> 0 < delta ->
  reached rate_limit delta l hist lo ->
  (forall T,
     Z.of_nat (length (filter (in_window delta T) hist)) <= rate_limit) /\
  (forall clock l' clock',
     nondecreasing_from lo clock = true ->
     RateLimiter.limit l clock = Some (l', clock') ->
     exists now t,
       lo <= now <= t /\
       RateLimiter._request_times l' = filter (fresh delta now) hist ++ [t] /\
       Z.of_nat (length (filter (fresh delta now) hist)) < rate_limit).
Proof.
  intros Hrl Hd Hadm.
  destruct (reached_window_inv rate_limit delta Hrl Hd l hist lo Hadm)
    as [Erl [Ed [Hs [Hle [[now0 [Hnow0 Heq]] Hwin]]]]].
  split; [exact Hwin|].
  intros clock l' clock' Hmono Hlim.
  assert (Hst : sorted (RateLimiter._request_times l)).
  { rewrite Heq. apply filter_sorted. exact Hs. }
  destruct (limit_step rate_limit delta Hrl Hd l lo clock l' clock'
              Erl Ed Hst Hmono Hlim) as [now [t [Hnt [Hl' Hlen]]]].
  rewrite Heq, filter_fresh_later in Hl', Hlen by lia.
  exists now, t. subst l'. simpl. auto.
Qed.

(** Three admissions under a limit of 2 per 10 ticks: the third call
    finds the deque full at tick 4, polls again at tick 14, when both
    earlier timestamps have expired, and records tick 15. *)
Lemma limit_window_bound_witness :
  let l := RateLimiter.mkAPIRateLimiter (Some 2) (Some 10) [15] in
  reached 2 10 l [1; 3; 15] 15 /\
  (forall T, Z.of_nat (length (filter (in_window 10 T) [1; 3; 15])) <= 2) /\
  (forall clock l' clock',
     nondecreasing_from 15 clock = true ->
     RateLimiter.limit l clock = Some (l', clock') ->
     exists now t,
       15 <= now <= t /\
       RateLimiter._request_times l'
         = filter (fresh 10 now) [1; 3; 15] ++ [t] /\
       Z.of_nat (length (filter (fresh 10 now) [1; 3; 15])) < 2).
Proof.
  intros l.
  assert (H1 : reached 2 10
                 (RateLimiter.mkAPIRateLimiter (Some 2) (Some 10) [1]) [1] 1).
  { exact (reached_limit 2 10 _ [] 0 [0; 1] _ [] [] 1
             (reached_init 2 10 0) eq_refl eq_refl eq_refl). }
  assert (H2 : reached 2 10
                 (RateLimiter.mkAPIRateLimiter (Some 2) (Some 10) [1; 3])
                 [1; 3] 3).
  { exact (reached_limit 2 10 _ [1] 1 [2; 3] _ [] [1] 3
             H1 eq_refl eq_refl eq_refl). }
  assert (H3 : reached 2 10 l [1; 3; 15] 15).
  { exact (reached_limit 2 10 _ [1; 3] 3 [4; 14; 15] _ [] [] 15
             H2 eq_refl eq_refl eq_refl). }
  split; [exact H3|].
  apply (limit_window_bound 2 10 l [1; 3; 15] 15); [lia | lia | exact H3].
Defined.

(** C9. A limiter whose [rate_limit] or [rate_second_delta] is unset or
    zero admits at once, through [limit] and through [async_limit]: the
    call returns without reading the clock and leaves the limiter, its
    window included, as it was. *)
Theorem limit_unconditional (l : RateLimiter.APIRateLimiter) (clock : list Z) :
  RateLimiter._rate_limit l = None \/ RateLimiter._rate_limit l = Some 0 \/
  RateLimiter._rate_second_delta l = None \/
  RateLimiter._rate_second_delta l = Some 0 ->
  RateLimiter.limit l clock = Some (l, clock) /\
  RateLimiter.async_limit l clock = Some (l, clock).
Proof.
  intros H. unfold RateLimiter.limit, RateLimiter.async_limit.
  assert (Hoff : truthy (RateLimiter._rate_limit l)
                 && truthy (RateLimiter._rate_second_delta l) = false).
  { destruct H as [H | [H | [H | H]]]; rewrite H; simpl;
      rewrite ?andb_false_r; reflexivity. }
  rewrite Hoff. split; reflexivity.
Qed.

Lemma limit_unconditional_witness :
  let l := RateLimiter.mkAPIRateLimiter (Some 10) (Some 0) [] in
  RateLimiter.limit l [] = Some (l, []) /\
  RateLimiter.async_limit l [] = Some (l, []).
Proof.
  intros l. apply (limit_unconditional l []). right. right. right. reflexivity.
Defined.

(** ** The proxy pool *)

Section ProxyFacts.

Import Proxy.

Lemma entry_eqb_eq p q : entry_eqb p q = true <-> p = q.
Proof.
  destruct p as [a n], q as [b m]. unfold entry_eqb. simpl.
  rewrite andb_true_iff, String.eqb_eq, Z.eqb_eq.
  split; [intros [-> ->]; reflexivity | intros H; inversion H; auto].
Qed.

Lemma entry_eqb_refl p : entry_eqb p p = true.
Proof. apply entry_eqb_eq. reflexivity. Qed.

Lemma entry_eqb_sym p q : entry_eqb p q = entry_eqb q p.
Proof.
  destruct (entry_eqb p q) eqn:E, (entry_eqb q p) eqn:E'; try reflexivity.
  - apply entry_eqb_eq in E. subst. rewrite entry_eqb_refl in E'. discriminate.
  - apply entry_eqb_eq in E'. subst. rewrite entry_eqb_refl in E. discriminate.
Qed.

Lemma contains_occurrences proxy l :
  contains proxy l = negb (Nat.eqb (occurrences proxy l) 0).
Proof.
  unfold contains, occurrences. induction l as [|q l IH]; simpl; [reflexivity|].
  destruct (entry_eqb proxy q); simpl; [reflexivity | exact IH].
Qed.

Lemma occurrences_list_remove proxy l :
  contains proxy l = true ->
  occurrences proxy l = S (occurrences proxy (list_remove proxy l)).
Proof.
  unfold contains, occurrences. induction l as [|q l IH]; simpl; [discriminate|].
  rewrite (entry_eqb_sym q proxy).
  destruct (entry_eqb proxy q) eqn:E; simpl; [reflexivity|].
  rewrite E. exact IH.
Qed.

(** [list.remove] takes out the first occurrence and nothing else. *)
Lemma list_remove_first proxy l :
  contains proxy l = true ->
  exists before after,
    l = before ++ proxy :: after /\
    contains proxy before = false /\
    list_remove proxy l = before ++ after.
Proof.
  unfold contains. induction l as [|q l IH]; simpl; [discriminate|].
  rewrite (entry_eqb_sym q proxy).
  destruct (entry_eqb proxy q) eqn:E; simpl; intros Hc.
  - apply entry_eqb_eq in E. subst q. exists [], l. auto.
  - destruct (IH Hc) as [before [after [Hl [Hb Hr]]]].
    exists (q :: before), after. simpl. rewrite E, Hb. subst l.
    repeat split; auto. rewrite Hr at 1. reflexivity.
Qed.

Lemma contains_nonempty proxy l :
  contains proxy l = true -> negb (Nat.eqb (length l) 0) = true.
Proof. destruct l; [discriminate | reflexivity]. Qed.

Lemma list_remove_absent proxy l :
  (occurrences proxy l <= 1)%nat -> contains proxy l = true ->
  contains proxy (list_remove proxy l) = false.
Proof.
  intros Hocc Hc. rewrite contains_occurrences.
  pose proof (occurrences_list_remove _ _ Hc) as Hs.
  replace (occurrences proxy (list_remove proxy l)) with 0%nat by lia.
  reflexivity.
Qed.

End ProxyFacts.

(** C8, as stated, fails on a pool that lists an entry twice: the first
    eviction leaves one copy, which the second removes. *)
Lemma evict_twice_counterexample :
  let p : ProxyEntry := ("10.0.0.1"%string, 8080) in
  let pool := Proxy.mkProxy [p; p] None 60 in
  let w := mkWorld [] [] [] [] in
  let once := Proxy._remove_proxy p (pool, w) in
  let twice := (Proxy._remove_proxy p ;;; Proxy._remove_proxy p) (pool, w) in
  Proxy.proxy_list (fst (snd (fst once))) = [p] /\
  Proxy.proxy_list (fst (snd (fst twice))) = [] /\
  snd (fst twice) <> snd (fst once).
Proof. cbv zeta. repeat split. discriminate. Qed.

(** C8, amended. Evicting an entry raises nothing and touches nothing but
    the pool's list: an absent entry leaves the list as it is, a present
    one loses its first occurrence; and on a pool that holds the entry at
    most once, evicting it twice leaves the state evicting it once
    leaves. *)
Theorem evict_first_occurrence (proxy : ProxyEntry) (pool : Proxy.Proxy)
  (w : World) :
  (Proxy.contains proxy (Proxy.proxy_list pool) = false ->
   Proxy._remove_proxy proxy (pool, w)
   = (Ret tt, (pool, w), [Evicted proxy false])) /\
  (Proxy.contains proxy (Proxy.proxy_list pool) = true ->
   exists before after,
     Proxy.proxy_list pool = before ++ proxy :: after /\
     Proxy.contains proxy before = false /\
     Proxy._remove_proxy proxy (pool, w)
     = (Ret tt, (Proxy.set_proxy_list pool (before ++ after), w),
        [Evicted proxy true])) /\
  ((occurrences proxy (Proxy.proxy_list pool) <= 1)%nat ->
   snd (fst ((Proxy._remove_proxy proxy ;;; Proxy._remove_proxy proxy) (pool, w)))
   = snd (fst (Proxy._remove_proxy proxy (pool, w)))).
Proof.
  unfold Proxy._remove_proxy, modify, emit, gets, bind. simpl.
  split; [| split].
  - intros Hc. rewrite Hc, andb_false_r. reflexivity.
  - intros Hc. rewrite Hc, (contains_nonempty _ _ Hc). simpl.
    destruct (list_remove_first _ _ Hc) as [before [after [Hl [Hb Hr]]]].
    exists before, after. rewrite Hr. auto.
  - intros Hocc.
    destruct (Proxy.contains proxy (Proxy.proxy_list pool)) eqn:Hc.
    + rewrite (contains_nonempty _ _ Hc). simpl.
      rewrite (list_remove_absent _ _ Hocc Hc), andb_false_r. reflexivity.
    + rewrite andb_false_r. simpl. rewrite Hc, andb_false_r. reflexivity.
Qed.

Lemma evict_first_occurrence_witness :
  let p : ProxyEntry := ("10.0.0.1"%string, 8080) in
  let q : ProxyEntry := ("10.0.0.2"%string, 3128) in
  let r : ProxyEntry := ("10.0.0.3"%string, 80) in
  let pool := Proxy.mkProxy [q; p] None 60 in
  let w := mkWorld [] [] [] [] in
  Proxy._remove_proxy r (pool, w) = (Ret tt, (pool, w), [Evicted r false]) /\
  (exists before after,
     [q; p] = before ++ p :: after /\
     Proxy.contains p before = false /\
     Proxy._remove_proxy p (pool, w)
     = (Ret tt, (Proxy.set_proxy_list pool (before ++ after), w),
        [Evicted p true])) /\
  snd (fst ((Proxy._remove_proxy p ;;; Proxy._remove_proxy p) (pool, w)))
  = snd (fst (Proxy._remove_proxy p (pool, w))).
Proof.
  cbv zeta.
  set (p := ("10.0.0.1"%string, 8080) : ProxyEntry).
  set (q := ("10.0.0.2"%string, 3128) : ProxyEntry).
  set (r := ("10.0.0.3"%string, 80) : ProxyEntry).
  set (pool := Proxy.mkProxy [q; p] None 60).
  set (w := mkWorld [] [] [] []).
  split; [| split].
  - apply (proj1 (evict_first_occurrence r pool w)). reflexivity.
  - apply (proj1 (proj2 (evict_first_occurrence p pool w))). reflexivity.
  - apply (proj2 (proj2 (evict_first_occurrence p pool w))).
    vm_compute. lia.
Defined.

(** C7, as stated, fails when exactly [offset] seconds have passed: the
    pool holds 5 entries and was refreshed 60 ticks ago with an offset of
    60, so the elapsed time does not exceed the offset, and the pool is
    replaced all the same. *)
Lemma rotate_at_offset_counterexample :
  let e (n : Z) : ProxyEntry := ("10.0.0.1"%string, n) in
  let pool := Proxy.mkProxy [e 1; e 2; e 3; e 4; e 5] (Some 0) 60 in
  let rows := [mkRow "10.9.9.9" 80 "United States"; mkRow "10.8.8.8" 81 "France"] in
  let w := mkWorld [60; 61] [inr rows] [] [] in
  ~ (length (Proxy.proxy_list pool) < 5)%nat /\
  ~ (60 - 0 > Proxy.offset pool) /\
  Proxy.rotate_proxies (pool, w)
  = (Ret tt,
     (Proxy.mkProxy [("10.9.9.9"%string, 80)] (Some 61) 60, mkWorld [] [] [] []),
     []).
Proof. cbv zeta. simpl. repeat split; lia. Qed.

(** C7, amended. [rotate_proxies] reads the clock once; when the pool has
    fewer than 5 entries, or was never refreshed, or at least [offset]
    seconds have passed since the last refresh, it replaces the pool by
    the United States rows of the fetched listing and records the next
    clock reading as the refresh time; otherwise it leaves the pool and
    the refresh time as they were and fetches nothing. *)
Theorem rotate_proxies_refresh (pool : Proxy.Proxy) (w : World)
  (now : Z) (clock' : list Z) :
  clock w = now :: clock' ->
  (refresh_due pool now ->
   forall rows ls t c,
     listings w = inr rows :: ls -> clock' = t :: c ->
     Proxy.rotate_proxies (pool, w)
     = (Ret tt,
        (Proxy.mkProxy (Proxy.united_states rows) (Some t) (Proxy.offset pool),
         mkWorld c ls (choices w) (transport w)),
        [])) /\
  (~ refresh_due pool now ->
   Proxy.rotate_proxies (pool, w) = (Ret tt, (pool, set_clock w clock'), [])).
Proof.
  intros Hclock.
  destruct pool as [pl last off], w as [ck ls ch tr]. simpl in Hclock. subst ck.
  unfold refresh_due. simpl.
  unfold Proxy.rotate_proxies, Proxy._check_time, bind, time_time, gets, ret.
  simpl. split.
  - intros Hdue rows ls' t c Hls Hc. subst ls clock'.
    assert (Hb : (match last with
                  | Some last0 => off <=? now - last0
                  | None => true
                  end || (Z.of_nat (length pl) <? 5)) = true).
    { destruct Hdue as [H | [[l0 [H H']] | H]].
      - subst last. reflexivity.
      - subst last. apply orb_true_iff. left. apply Z.leb_le. exact H'.
      - apply orb_true_iff. right. apply Z.ltb_lt. lia. }
    rewrite Hb. reflexivity.
  - intros Hnot.
    assert (Hb : (match last with
                  | Some last0 => off <=? now - last0
                  | None => true
                  end || (Z.of_nat (length pl) <? 5)) = false).
    { apply orb_false_iff. split.
      - destruct last as [l0|].
        + apply Z.leb_gt. destruct (Z.lt_ge_cases (now - l0) off) as [H|H]; [exact H|].
          exfalso. apply Hnot. right. left. exists l0. auto.
        + exfalso. apply Hnot. left. reflexivity.
      - apply Z.ltb_ge. destruct (Z.lt_ge_cases (Z.of_nat (length pl)) 5) as [H|H];
          [| exact H].
        exfalso. apply Hnot. right. right. lia. }
    rewrite Hb. reflexivity.
Qed.

Lemma rotate_proxies_refresh_witness :
  let e (n : Z) : ProxyEntry := ("10.0.0.1"%string, n) in
  let pool := Proxy.mkProxy [e 1; e 2; e 3; e 4; e 5] (Some 0) 60 in
  let rows := [mkRow "10.9.9.9" 80 "United States"] in
  (refresh_due pool 75 /\
   Proxy.rotate_proxies (pool, mkWorld [75; 76] [inr rows] [] [])
   = (Ret tt,
      (Proxy.mkProxy (Proxy.united_states rows) (Some 76) 60,
       mkWorld [] [] [] []), [])) /\
  (~ refresh_due pool 59 /\
   Proxy.rotate_proxies (pool, mkWorld [59; 76] [inr rows] [] [])
   = (Ret tt, (pool, mkWorld [76] [inr rows] [] []), [])).
Proof.
  cbv zeta.
  assert (Hdue : refresh_due
            (Proxy.mkProxy [("10.0.0.1"%string, 1); ("10.0.0.1"%string, 2);
                            ("10.0.0.1"%string, 3); ("10.0.0.1"%string, 4);
                            ("10.0.0.1"%string, 5)] (Some 0) 60) 75).
  { right. left. exists 0. simpl. split; [reflexivity | lia]. }
  assert (Hnot : ~ refresh_due
            (Proxy.mkProxy [("10.0.0.1"%string, 1); ("10.0.0.1"%string, 2);
                            ("10.0.0.1"%string, 3); ("10.0.0.1"%string, 4);
                            ("10.0.0.1"%string, 5)] (Some 0) 60) 59).
  { intros [H | [[l0 [H H']] | H]].
    - discriminate.
    - cbn [Proxy.offset Proxy.last_rotate_time] in H, H'.
      inversion H. subst l0. lia.
    - cbn [Proxy.proxy_list length] in H. lia. }
  split; (split; [assumption|]).
  - apply (proj1 (rotate_proxies_refresh _
             (mkWorld [75; 76] [inr [mkRow "10.9.9.9" 80 "United States"]] [] [])
             75 [76] eq_refl) Hdue _ [] 76 [] eq_refl eq_refl).
  - apply (proj2 (rotate_proxies_refresh _
             (mkWorld [59; 76] [inr [mkRow "10.9.9.9" 80 "United States"]] [] [])
             59 [76] eq_refl) Hnot).
Defined.

(** ** The request layer *)

Section RequestFacts.

Import RateLimiter Proxy Scraper.

Variable format : string -> string -> string.

Lemma rotate_proxies_silent st r st' evs :
  rotate_proxies st = (r, st', evs) -> evs = [].
Proof.
  destruct st as [pool w].
  unfold rotate_proxies, _check_time, fetch_listing, bind, time_time, gets,
    modify, ret.
  simpl. destruct (clock w) as [|now c]; simpl.
  - intros H; inversion H; reflexivity.
  - destruct (_ || _); simpl.
    + destruct (listings w) as [|[e|rows] ls]; simpl;
        try (intros H; inversion H; reflexivity).
      destruct c as [|t c]; simpl; intros H; inversion H; reflexivity.
    + intros H; inversion H; reflexivity.
Qed.

Lemma random_choice_In (pl : list ProxyEntry) (sw sw' : Scraper * World) p evs :
  random_choice pl sw = (Ret p, sw', evs) ->
  contains p pl = true /\ evs = [].
Proof.
  unfold random_choice. destruct pl as [|x pl]; [discriminate|].
  destruct (choices (snd sw)) as [|i c]; [discriminate|].
  assert (Hin : In (nth (Nat.modulo i (length (x :: pl))) (x :: pl) x) (x :: pl)).
  { apply nth_In. apply Nat.mod_upper_bound. discriminate. }
  remember (nth (Nat.modulo i (length (x :: pl))) (x :: pl) x) as v.
  intros H. inversion H; subst p evs. split; [| reflexivity].
  unfold contains. apply existsb_exists.
  exists v. split; [exact Hin | apply entry_eqb_refl].
Qed.

(** One run of the body of [_make_request] through a proxy. *)
Lemma body_shape url location sw res sw' evs :
  _make_request_body format url location true sw = (res, sw', evs) ->
  attempt_shape (current_url format url location) res evs /\
  cursor_kept (fst sw) (fst sw').
Proof.
  unfold _make_request_body. fold (current_url format url location).
  generalize (current_url format url location). intros u.
  unfold bind at 1.
  destruct (zoom proxy_obj set_proxy_obj rotate_proxies sw)
    as [[r0 [s1 w1]] e0] eqn:Hrot.
  unfold zoom in Hrot.
  destruct (rotate_proxies (proxy_obj (fst sw), snd sw))
    as [[r0' [t0 w0]] e0'] eqn:Hr.
  apply rotate_proxies_silent in Hr. inversion Hrot; subst. clear Hrot.
  destruct r0 as [[]|e|]; try (intros H; not_sent H).
  unfold bind at 1, gets at 1. cbn [fst snd].
  unfold bind at 1.
  destruct (random_choice (proxy_list (proxy_obj (set_proxy_obj (fst sw) t0)))
              (set_proxy_obj (fst sw) t0, w1))
    as [[rc [s2 w2]] e1] eqn:Hch.
  destruct rc as [p|e|].
  2,3: unfold random_choice in Hch;
       destruct (proxy_list (proxy_obj (set_proxy_obj (fst sw) t0)));
       [| destruct (choices (snd (set_proxy_obj (fst sw) t0, w1)))];
       inversion Hch; subst; intros H; not_sent H.
  destruct (random_choice_In _ _ _ _ _ Hch) as [Hin He1]. subst e1.
  assert (Hs2 : s2 = set_proxy_obj (fst sw) t0).
  { unfold random_choice in Hch.
    destruct (proxy_list (proxy_obj (set_proxy_obj (fst sw) t0))); [discriminate|].
    destruct (choices (snd (set_proxy_obj (fst sw) t0, w1))); [discriminate|].
    inversion Hch; reflexivity. }
  subst s2. clear Hch.
  unfold bind at 1, emit at 1. unfold try_except, bind at 1.
  unfold with_rate_limiter. cbn [fst snd].
  destruct (__enter__ (_rate_limiter (set_proxy_obj (fst sw) t0)) (clock w2))
    as [[l c]|]; [| intros H; not_sent H].
  unfold bind at 1, get. cbn [fst snd set_clock transport].
  destruct (transport w2) as [|o t]; [intros H; not_sent H|].
  destruct o as [e|r].
  - destruct (is_RequestException e) eqn:Hre.
    + destruct e; try discriminate Hre.
      * (* Timeout *)
        unfold zoom, remove_bad_proxy, _remove_proxy, gets, modify, emit,
          raise.
        repeat unfold bind.
        cbn [fst snd set_rate_limiter proxy_obj set_proxy_obj] in Hin |- *.
        rewrite Hin, (contains_nonempty _ _ Hin). cbn.
        intros H; shape_done H. apply attempt_timeout.
      * cbn. intros H; shape_done H.
        apply attempt_swallowed; [reflexivity | discriminate].
      * cbn. intros H; shape_done H.
        apply attempt_swallowed; [reflexivity | discriminate].
    + cbn. intros H; shape_done H. apply attempt_propagated. exact Hre.
  - cbn. intros H; shape_done H. apply attempt_response.
Qed.

Lemma retry_unfold {S A} n (f : M S A) s :
  retry (Datatypes.S n) f s
  = match f s with
    | (Raise Timeout, s', evs) =>
        match retry n f s' with
        | (r, s'', evs') => (r, s'', evs ++ evs')
        end
    | other => other
    end.
Proof.
  cbn [retry]. unfold try_except.
  destruct (f s) as [[[a|e|] s'] evs]; try reflexivity.
  destruct e; reflexivity.
Qed.

Lemma cursor_kept_trans s1 s2 s3 :
  cursor_kept s1 s2 -> cursor_kept s2 s3 -> cursor_kept s1 s3.
Proof. unfold cursor_kept. intuition congruence. Qed.

Lemma cursor_kept_refl s : cursor_kept s s.
Proof. unfold cursor_kept. auto. Qed.

(** [retry n] around the body. *)
Lemma retry_body_shape url location n : forall sw res sw' evs,
  retry n (_make_request_body format url location true) sw = (res, sw', evs) ->
  retry_shape (current_url format url location) n res evs /\
  cursor_kept (fst sw) (fst sw').
Proof.
  induction n as [|n IH]; intros sw res sw' evs Hrun.
  - inversion Hrun; subst. split; [constructor | apply cursor_kept_refl].
  - rewrite retry_unfold in Hrun.
    destruct (_make_request_body format url location true sw)
      as [[r1 sw1] e1] eqn:Hbody.
    apply body_shape in Hbody. destruct Hbody as [Hshape Hkept].
    assert (Hcases : r1 = Raise Timeout \/ r1 <> Raise Timeout).
    { destruct r1 as [a|e|]; try (right; discriminate).
      destruct e; try (right; discriminate). left; reflexivity. }
    destruct Hcases as [-> | Hne].
    + destruct (retry n (_make_request_body format url location true) sw1)
        as [[r2 sw2] e2] eqn:Hrest.
      apply IH in Hrest. destruct Hrest as [Hshape2 Hkept2].
      inversion Hrun; subst. split.
      * apply retry_again; assumption.
      * eapply cursor_kept_trans; eassumption.
    + assert (Hsame : (res, sw', evs) = (r1, sw1, e1)).
      { rewrite <- Hrun. destruct r1 as [a|e|]; try reflexivity.
        destruct e; try reflexivity. congruence. }
      inversion Hsame; subst. split; [| exact Hkept].
      apply retry_done; assumption.
Qed.

Lemma outcomes_app e1 e2 : outcomes (e1 ++ e2) = outcomes e1 ++ outcomes e2.
Proof.
  induction e1 as [|ev e1 IH]; simpl; [reflexivity|].
  destruct ev; simpl; rewrite ?IH; reflexivity.
Qed.

Lemma attempt_shape_outcomes u res evs :
  attempt_shape u res evs -> (length (outcomes evs) <= 1)%nat.
Proof. intros H; inversion H; subst; simpl; try lia. rewrite H0. simpl. lia. Qed.

Lemma retry_shape_outcomes u n res evs :
  retry_shape u n res evs -> (length (outcomes evs) <= n)%nat.
Proof.
  induction 1 as [| n res evs Hs _ | n evs1 res evs2 Hs _ IH]; simpl.
  - lia.
  - apply attempt_shape_outcomes in Hs. lia.
  - rewrite outcomes_app, length_app.
    apply attempt_shape_outcomes in Hs. lia.
Qed.

Lemma attempt_timed_out u evs :
  attempt_shape u (Raise Timeout) evs ->
  outcomes evs = [] \/
  exists p,
    evs = [Selected p; Entered; Sent u (Some p) (inl Timeout); Evicted p true].
Proof.
  intros H. inversion H; subst.
  - left. assumption.
  - right. eauto.
  - discriminate.
Qed.


End RequestFacts.



(** C5. On a connection error of the transport, [_make_request] through
    a proxy issues the one GET, takes the [except RequestException]
    branch, and returns [None]: nothing is raised to the caller. *)
Theorem connection_error_returns_None :
  let run := Scraper._make_request Scenario.format "http://site/" None true
               (Scraper.init 50 60,
                Scenario.failing (RequestException "ConnectionError")) in
  outcomes (snd run) = [inl (RequestException "ConnectionError")] /\
  fst (fst run) = Ret None.
Proof. cbv zeta. vm_compute. split; reflexivity. Qed.

Section CallerFacts.

Import RateLimiter Proxy Scraper.

Variable format : string -> string -> string.
Variable find_all_a_href : string -> list string.
Variable find_error_404 : string -> bool.
Variable BASE_URL_MAP : string -> option string.

Lemma _request_on_None site url location sw sw' evs :
  _make_request format url (Some location) true sw = (Ret None, sw', evs) ->
  _request format find_all_a_href find_error_404 BASE_URL_MAP
           site url location sw
  = (Raise AttributeError, sw', evs).
Proof.
  intros Hrun. unfold _request, bind at 1. rewrite Hrun.
  unfold bind at 1. cbn. rewrite app_nil_r. reflexivity.
Qed.

Lemma scrape_on_None u rest sw sw' evs :
  urls (fst sw) = u :: rest ->
  _make_request format u None true sw = (Ret None, sw', evs) ->
  scrape format sw = (Raise AttributeError, sw', evs).
Proof.
  intros Hurls Hrun. unfold scrape, bind at 1, gets. rewrite Hurls.
  cbn [scrape_loop]. unfold bind at 1. rewrite Hrun.
  unfold bind at 1. cbn. rewrite app_nil_r. reflexivity.
Qed.

(** An empty pool after the refresh: [random.choice] raises IndexError,
    which is not a Timeout, so [retry] lets it through. *)
Lemma _make_request_empty_pool url location s w pool' w' evs :
  rotate_proxies (proxy_obj s, w) = (Ret tt, (pool', w'), evs) ->
  proxy_list pool' = [] ->
  _make_request format url location true (s, w)
  = (Raise IndexError, (set_proxy_obj s pool', w'), []).
Proof.
  intros Hrot Hempty.
  pose proof (rotate_proxies_silent _ _ _ _ Hrot) as He. subst evs.
  unfold _make_request. rewrite retry_unfold.
  unfold _make_request_body, bind at 1, zoom. cbn [fst snd].
  rewrite Hrot. unfold bind at 1, gets at 1. cbn [fst snd proxy_obj set_proxy_obj].
  rewrite Hempty. cbn. reflexivity.
Qed.

End CallerFacts.

(** C6, as stated, fails: with no United States row in the listing the
    pool is empty after the refresh, and the fetch ends in the IndexError
    of [random.choice], not in an EmptyPoolError. *)
Lemma empty_pool_counterexample :
  let run := Scraper._make_request Scenario.format "http://site/" None true
               (Scraper.init 50 60, Scenario.no_proxies) in
  Proxy.proxy_list (Scraper.proxy_obj (fst (snd (fst run)))) = [] /\
  fst (fst run) = Raise IndexError /\
  ~ (exists e, fst (fst run) = Raise e /\ exn_name e = "EmptyPoolError"%string).
Proof.
  cbv zeta. vm_compute. repeat split.
  intros [e [He Hname]]. inversion He; subst. discriminate.
Qed.

(** C6, amended. When the pool is empty after [rotate_proxies] has run,
    [_make_request] through a proxy ends in the IndexError that
    [random.choice] raises on the empty list: the error reaches the
    caller, no further attempt is made, the rate limiter is not entered
    and nothing is sent. *)
Theorem empty_pool_raises_IndexError (format : string -> string -> string)
  (url : string) (location : option string) (s : Scraper.Scraper) (w : World)
  (pool' : Proxy.Proxy) (w' : World) (evs : list event) :
  Proxy.rotate_proxies (Scraper.proxy_obj s, w) = (Ret tt, (pool', w'), evs) ->
  Proxy.proxy_list pool' = [] ->
  Scraper._make_request format url location true (s, w)
  = (Raise IndexError, (Scraper.set_proxy_obj s pool', w'), []).
Proof. apply _make_request_empty_pool. Qed.

Lemma empty_pool_raises_IndexError_witness :
  Scraper._make_request Scenario.format "http://site/" None true
    (Scraper.init 50 60, Scenario.no_proxies)
  = (Raise IndexError,
     (Scraper.set_proxy_obj (Scraper.init 50 60) (Proxy.mkProxy [] (Some 100) 60),
      mkWorld [101; 101] [] [0%nat] [inr Scenario.page]),
     []).
Proof.
  apply (empty_pool_raises_IndexError Scenario.format "http://site/" None
           (Scraper.init 50 60) Scenario.no_proxies
           (Proxy.mkProxy [] (Some 100) 60)
           (mkWorld [101; 101] [] [0%nat] [inr Scenario.page]) []).
  - vm_compute. reflexivity.
  - reflexivity.
Defined.

(** C10. Whenever [_make_request] returns [None], [_request] and
    [scrape] go on to read [resp.text] and end in an AttributeError, with
    nothing done in between; and there is such a run: a fetch whose GET
    ends in too many redirects returns [None]. *)
Theorem None_result_crashes_callers (format : string -> string -> string)
  (find_all_a_href : string -> list string) (find_error_404 : string -> bool)
  (BASE_URL_MAP : string -> option string) :
  (forall site url location sw sw' evs,
     Scraper._make_request format url (Some location) true sw
     = (Ret None, sw', evs) ->
     Scraper._request format find_all_a_href find_error_404 BASE_URL_MAP
                      site url location sw
     = (Raise AttributeError, sw', evs)) /\
  (forall u rest sw sw' evs,
     Scraper.urls (fst sw) = u :: rest ->
     Scraper._make_request format u None true sw = (Ret None, sw', evs) ->
     Scraper.scrape format sw = (Raise AttributeError, sw', evs)) /\
  (exists sw sw' evs,
     outcomes evs = [inl TooManyRedirects] /\
     Scraper._make_request format "http://site/" None true sw
     = (Ret None, sw', evs)).
Proof.
  split; [| split].
  - intros. apply _request_on_None. assumption.
  - intros. eapply scrape_on_None; eassumption.
  - exists (Scraper.init 50 60, Scenario.failing TooManyRedirects).
    eexists. eexists. split; [| vm_compute; reflexivity]. reflexivity.
Qed.

(** ** The pagination loop *)

Section CrawlFacts.

Import RateLimiter Proxy Scraper.

Variable format : string -> string -> string.
Variable find_all_a_href : string -> list string.
Variable find_error_404 : string -> bool.
Variable BASE_URL_MAP : string -> option string.

Lemma collect_nothing base s links :
  budget s = 0%nat -> collect base links s = s.
Proof.
  unfold collect. intros ->. simpl. rewrite app_nil_r, Z.add_0_r.
  destruct s; reflexivity.
Qed.

Lemma collect_nil base s : collect base [] s = s.
Proof.
  unfold collect. rewrite firstn_nil. simpl. rewrite app_nil_r, Z.add_0_r.
  destruct s; reflexivity.
Qed.

(** [_collect_urls] appends the detail links of the page, in order, as
    far as the depth budget goes. *)
Lemma collect_links_spec site base links : forall s w,
  BASE_URL_MAP site = Some base ->
  collect_links BASE_URL_MAP site links (s, w)
  = (Ret tt,
     (collect base (filter (String.prefix detail_prefix) links) s, w), []).
Proof.
  induction links as [|href rest IH]; intros s w Hbase.
  - simpl. rewrite collect_nil. reflexivity.
  - cbn [collect_links]. unfold bind at 1, gets at 1. cbn [fst snd].
    destruct (Z.geb_spec (current_counter s) (depth s)) as [Hfull|Hroom].
    + cbn. rewrite collect_nothing; [reflexivity|].
      unfold budget. lia.
    + cbn [filter]. destruct (String.prefix detail_prefix href).
      * rewrite Hbase. unfold bind at 1, modify at 1. cbn [fst snd].
        unfold bind at 1, modify at 1. cbn [fst snd].
        rewrite IH by exact Hbase. cbn [app]. f_equal. f_equal. f_equal.
        unfold collect, budget. cbn [depth current_counter urls set_urls
                                       set_current_counter].
        replace (Z.to_nat (depth s - current_counter s))
          with (S (Z.to_nat (depth s - (current_counter s + 1)))) by lia.
        cbn [firstn map length]. rewrite <- app_assoc. cbn [app].
        unfold set_current_counter, set_urls.
        cbn [urls visited current_page current_counter depth proxy_obj
             _rate_limiter].
        f_equal. lia.
      * rewrite IH by exact Hbase. reflexivity.
Qed.

Lemma _make_request_frame url location sw res sw' evs :
  _make_request format url location true sw = (res, sw', evs) ->
  cursor_kept (fst sw) (fst sw').
Proof.
  unfold _make_request. intros H.
  apply (retry_body_shape format) in H. destruct H as [_ H]. exact H.
Qed.

(** [_next_page] on realtor.com, when it returns: one fetch, and the page
    cursor moved on by one. *)
Lemma _next_page_returns location url sw soup sw' evs :
  _next_page format find_error_404 "realtor.com" location url sw
  = (Ret soup, sw', evs) ->
  urls (fst sw') = urls (fst sw) /\
  current_counter (fst sw') = current_counter (fst sw) /\
  depth (fst sw') = depth (fst sw) /\
  current_page (fst sw') = current_page (fst sw) + 1.
Proof.
  unfold _next_page. cbn [String.eqb Ascii.eqb Bool.eqb].
  unfold bind at 1, gets at 1.
  unfold bind at 1.
  destruct (_make_request format _ None true sw) as [[r sw1] e1] eqn:Hreq.
  apply _make_request_frame in Hreq.
  destruct Hreq as [Hu [_ [Hp [Hc Hd]]]].
  destruct r as [[resp|]|e|]; cbn; try discriminate.
  destruct (find_error_404 (text resp)); cbn;
    intros H; inversion H; subst; cbn; repeat split; congruence.
Qed.

(** [_request] on realtor.com, once the two fetches and the extraction
    have returned: the test that follows [_next_page]. *)
Lemma _request_decides url location sw resp sw1 e1 sw2 e2 soup sw3 e3 :
  _make_request format url (Some location) true sw
  = (Ret (Some resp), sw1, e1) ->
  _collect_urls find_all_a_href BASE_URL_MAP (Some (text resp)) "realtor.com" sw1
  = (Ret tt, sw2, e2) ->
  _next_page format find_error_404 "realtor.com" location url sw2
  = (Ret soup, sw3, e3) ->
  _request format find_all_a_href find_error_404 BASE_URL_MAP
           "realtor.com" url location sw
  = if (current_counter (fst sw3) <? depth (fst sw3)) && ok resp
       && (length (urls (fst sw1)) <? length (urls (fst sw3)))%nat
    then (Ret PyTrue, sw3, e1 ++ e2 ++ e3)
    else if (length (urls (fst sw3)) <=? length (urls (fst sw1)))%nat
    then (Ret PyFalse, sw3, e1 ++ e2 ++ e3)
    else (Ret PyNone, (reset_cursor (fst sw3), snd sw3), e1 ++ e2 ++ e3).
Proof.
  intros Hreq Hcol Hnext. unfold _request.
  unfold bind at 1. rewrite Hreq.
  unfold bind at 1, text_of at 1, ret at 1.
  unfold bind at 1, gets at 1. cbn [fst snd].
  cbn [String.eqb Ascii.eqb Bool.eqb].
  unfold bind at 1. rewrite Hcol.
  unfold bind at 1. rewrite Hnext.
  unfold bind at 1, gets at 1. cbn [fst snd].
  destruct ((current_counter (fst sw3) <? depth (fst sw3)) && ok resp
            && (length (urls (fst sw1)) <? length (urls (fst sw3)))%nat).
  - cbn. rewrite !app_nil_r. reflexivity.
  - destruct (length (urls (fst sw3)) <=? length (urls (fst sw1)))%nat.
    + cbn. rewrite !app_nil_r. reflexivity.
    + cbn. rewrite !app_nil_r. reflexivity.
Qed.

(** The locations after a prefix that ran to its end are handled from
    the state that prefix left. *)
Lemma navigate_loop_app site url post : forall pre sw0 sw e0,
  navigate_loop format find_all_a_href find_error_404 BASE_URL_MAP
                site url pre sw0 = (Ret true, sw, e0) ->
  navigate_loop format find_all_a_href find_error_404 BASE_URL_MAP
                site url (pre ++ post) sw0
  = match navigate_loop format find_all_a_href find_error_404 BASE_URL_MAP
                        site url post sw with
    | (r, sw', e) => (r, sw', e0 ++ e)
    end.
Proof.
  induction pre as [|loc pre IH]; intros sw0 sw e0 Hpre.
  - cbn in Hpre. inversion Hpre; subst. cbn [app].
    destruct (navigate_loop _ _ _ _ site url post sw) as [[r sw'] e].
    reflexivity.
  - cbn [app navigate_loop] in Hpre |- *. unfold bind in Hpre |- *.
    destruct (_request format find_all_a_href find_error_404 BASE_URL_MAP
                       site url loc sw0) as [[r s1] ev1].
    destruct r as [v|e|]; try discriminate.
    destruct v.
    + destruct (navigate_loop _ _ _ _ site url pre s1) as [[r2 s2] ev2] eqn:Hp.
      inversion Hpre; subst. rewrite (IH _ _ _ Hp).
      destruct (navigate_loop _ _ _ _ site url post sw) as [[r3 s3] ev3].
      rewrite app_assoc. reflexivity.
    + cbn in Hpre. discriminate.
    + destruct (navigate_loop _ _ _ _ site url pre s1) as [[r2 s2] ev2] eqn:Hp.
      inversion Hpre; subst. rewrite (IH _ _ _ Hp).
      destruct (navigate_loop _ _ _ _ site url post sw) as [[r3 s3] ev3].
      rewrite app_assoc. reflexivity.
Qed.

End CrawlFacts.

(** C3, as stated, fails in two ways. On a site other than realtor.com
    the page of location A adds nothing to the frontier, yet [_request]
    returns [True] and [navigate] goes on to request location B. On
    realtor.com, when the page of A adds nothing and the request for its
    next page, which comes before the test for a stall, ends in too many
    redirects, [_request] does not return [False]: it raises
    [AttributeError], and [navigate] with it. *)
Lemma stall_counterexample :
  let nav site w :=
    Scraper.navigate Scenario.format Scenario.find_all_a_href
      Scenario.find_error_404 Scenario.BASE_URL_MAP
      site "http://site/" ["A"; "B"]%string (Scraper.init 5 60, w) in
  let req site w :=
    Scraper._request Scenario.format Scenario.find_all_a_href
      Scenario.find_error_404 Scenario.BASE_URL_MAP
      site "http://site/" "A" (Scraper.init 5 60, w) in
  let elsewhere :=
    Scenario.crawl [Scenario.listing_page 0; Scenario.listing_page 0] in
  let lost_next_page :=
    mkWorld (repeat 100 10) [inr Scenario.rows] [0%nat; 0%nat]
            [inr (Scenario.listing_page 0); inl TooManyRedirects] in
  (Scraper.urls (fst (snd (fst (req "loopnet.com"%string elsewhere)))) = [] /\
   fst (fst (req "loopnet.com"%string elsewhere)) = Ret Scraper.PyTrue /\
   fst (fst (nav "loopnet.com"%string elsewhere)) = Ret tt /\
   requested (snd (nav "loopnet.com"%string elsewhere))
   = ["http://site/A"; "http://site/B"]%string) /\
  (Scraper.urls (fst (snd (fst (req "realtor.com"%string lost_next_page)))) = [] /\
   requested (snd (req "realtor.com"%string lost_next_page))
   = ["http://site/A"; "http://site/A/pg-1"]%string /\
   fst (fst (req "realtor.com"%string lost_next_page)) = Raise AttributeError /\
   fst (fst (nav "realtor.com"%string lost_next_page)) = Raise AttributeError).
Proof. cbv zeta. vm_compute. repeat split. Qed.

(** C3, amended. On realtor.com, when the locations before [location]
    have run to their end, the page of [location] is fetched, its
    extraction leaves the frontier no longer than it was, and the request
    for the next page returns a response, then [_request] returns [False]
    for [location], and [navigate] ends there: whatever locations follow,
    its result, final state and events are those of the run that stops at
    [location]. *)
Theorem stall_ends_navigate (format : string -> string -> string)
  (find_all_a_href : string -> list string) (find_error_404 : string -> bool)
  (BASE_URL_MAP : string -> option string)
  (url : string) (pre : list string) (location : string) (rest : list string)
  (sw0 sw sw1 sw2 sw3 : Scraper.Scraper * World) (e0 e1 e2 e3 : list event)
  (resp : Response) (soup : option string) :
  Scraper.navigate_loop format find_all_a_href find_error_404 BASE_URL_MAP
    "realtor.com" url pre sw0 = (Ret true, sw, e0) ->
  Scraper._make_request format url (Some location) true sw
  = (Ret (Some resp), sw1, e1) ->
  Scraper._collect_urls find_all_a_href BASE_URL_MAP (Some (text resp))
    "realtor.com" sw1 = (Ret tt, sw2, e2) ->
  (length (Scraper.urls (fst sw2)) <= length (Scraper.urls (fst sw)))%nat ->
  Scraper._next_page format find_error_404 "realtor.com" location url sw2
  = (Ret soup, sw3, e3) ->
  Scraper._request format find_all_a_href find_error_404 BASE_URL_MAP
    "realtor.com" url location sw
  = (Ret Scraper.PyFalse, sw3, e1 ++ e2 ++ e3) /\
  Scraper.navigate format find_all_a_href find_error_404 BASE_URL_MAP
    "realtor.com" url (pre ++ location :: rest) sw0
  = (Ret tt, sw3, e0 ++ e1 ++ e2 ++ e3) /\
  Scraper.navigate format find_all_a_href find_error_404 BASE_URL_MAP
    "realtor.com" url (pre ++ location :: rest) sw0
  = Scraper.navigate format find_all_a_href find_error_404 BASE_URL_MAP
      "realtor.com" url (pre ++ [location]) sw0.
Proof.
  intros Hpre Hreq Hcol Hstall Hnext.
  pose proof Hreq as Hframe. apply _make_request_frame in Hframe.
  destruct Hframe as [Hu1 _].
  pose proof Hnext as Hpage. apply _next_page_returns in Hpage.
  destruct Hpage as [Hu3 [Hc3 [Hd3 _]]].
  assert (Hfalse :
    Scraper._request format find_all_a_href find_error_404 BASE_URL_MAP
      "realtor.com" url location sw
    = (Ret Scraper.PyFalse, sw3, e1 ++ e2 ++ e3)).
  { erewrite _request_decides by eassumption.
    rewrite Hu3, Hu1.
    replace (length (Scraper.urls (fst sw))
             <? length (Scraper.urls (fst sw2)))%nat with false
      by (symmetry; apply Nat.ltb_ge; exact Hstall).
    rewrite andb_false_r.
    replace (length (Scraper.urls (fst sw2))
             <=? length (Scraper.urls (fst sw)))%nat with true
      by (symmetry; apply Nat.leb_le; exact Hstall).
    reflexivity. }
  assert (Hstop : forall post,
    Scraper.navigate format find_all_a_href find_error_404 BASE_URL_MAP
      "realtor.com" url (pre ++ location :: post) sw0
    = (Ret tt, sw3, e0 ++ e1 ++ e2 ++ e3)).
  { intros post. unfold Scraper.navigate, bind at 1.
    erewrite navigate_loop_app by eassumption.
    cbn [Scraper.navigate_loop]. unfold bind at 1. rewrite Hfalse.
    cbn. rewrite !app_nil_r. reflexivity. }
  split; [exact Hfalse | split; [apply Hstop |]].
  rewrite (Hstop rest), (Hstop []). reflexivity.
Qed.

(** A crawl of three locations under a depth of 5: the page of the
    second location has no detail link, and the third location is never
    requested. *)
Lemma stall_ends_navigate_witness :
  let sw0 := (Scraper.init 5 60,
              Scenario.crawl [Scenario.listing_page 3; Scenario.listing_page 0;
                              Scenario.listing_page 0; Scenario.listing_page 0;
                              Scenario.listing_page 4; Scenario.listing_page 0]) in
  let nav locations :=
    Scraper.navigate Scenario.format Scenario.find_all_a_href
      Scenario.find_error_404 Scenario.BASE_URL_MAP
      "realtor.com" "http://site/" locations sw0 in
  nav ["A"; "B"; "C"]%string = nav ["A"; "B"]%string /\
  fst (fst (nav ["A"; "B"; "C"]%string)) = Ret tt /\
  length (outcomes (snd (nav ["A"; "B"; "C"]%string))) = 4%nat.
Proof.
  cbv zeta.
  set (sw0 := (Scraper.init 5 60,
              Scenario.crawl [Scenario.listing_page 3; Scenario.listing_page 0;
                              Scenario.listing_page 0; Scenario.listing_page 0;
                              Scenario.listing_page 4; Scenario.listing_page 0])).
  set (runA := Scraper.navigate_loop Scenario.format Scenario.find_all_a_href
                 Scenario.find_error_404 Scenario.BASE_URL_MAP
                 "realtor.com" "http://site/" ["A"%string] sw0).
  set (sw := snd (fst runA)).
  set (req := Scraper._make_request Scenario.format "http://site/"
                (Some "B"%string) true sw).
  set (sw1 := snd (fst req)).
  set (col := Scraper._collect_urls Scenario.find_all_a_href
                Scenario.BASE_URL_MAP (Some (text (Scenario.listing_page 0)))
                "realtor.com" sw1).
  set (sw2 := snd (fst col)).
  set (nxt := Scraper._next_page Scenario.format Scenario.find_error_404
                "realtor.com" "B" "http://site/" sw2).
  assert (H1 : runA = (Ret true, sw, snd runA)) by (vm_compute; reflexivity).
  assert (H2 : req = (Ret (Some (Scenario.listing_page 0)), sw1, snd req))
    by (vm_compute; reflexivity).
  assert (H3 : col = (Ret tt, sw2, snd col)) by (vm_compute; reflexivity).
  assert (H4 : (length (Scraper.urls (fst sw2))
                <= length (Scraper.urls (fst sw)))%nat)
    by (vm_compute; lia).
  assert (H5 : nxt = (Ret (Some "/about"%string), snd (fst nxt), snd nxt))
    by (vm_compute; reflexivity).
  destruct (stall_ends_navigate Scenario.format Scenario.find_all_a_href
              Scenario.find_error_404 Scenario.BASE_URL_MAP
              "http://site/" ["A"%string] "B" ["C"%string]
              sw0 sw sw1 sw2 (snd (fst nxt))
              (snd runA) (snd req) (snd col) (snd nxt)
              (Scenario.listing_page 0) (Some "/about"%string)
              H1 H2 H3 H4 H5)
    as [_ [Hnav Hsame]].
  split; [exact Hsame | split].
  - exact (f_equal (fun r => fst (fst r)) Hnav).
  - vm_compute. reflexivity.
Defined.

(** C2, as stated, fails on the second location of a crawl with a depth
    of 5: the first location's page gave 3 links and left the counter at
    3, so the page of the second location, which has 6 detail links,
    adds 2 entries to the frontier, not 5, before the depth-limit exit. *)
Lemma depth_budget_counterexample :
  let sw0 := (Scraper.init 5 60,
              Scenario.crawl [Scenario.listing_page 3; Scenario.listing_page 0;
                              Scenario.listing_page 6; Scenario.listing_page 0]) in
  let after_A :=
    snd (fst (Scraper.navigate Scenario.format Scenario.find_all_a_href
                Scenario.find_error_404 Scenario.BASE_URL_MAP
                "realtor.com" "http://site/" ["A"%string] sw0)) in
  let run_B :=
    Scraper._request Scenario.format Scenario.find_all_a_href
      Scenario.find_error_404 Scenario.BASE_URL_MAP
      "realtor.com" "http://site/" "B" after_A in
  Scraper.depth (fst after_A) = 5 /\
  nth 0 (outcomes (snd run_B)) (inl Timeout) = inr (Scenario.listing_page 6) /\
  length (detail_links Scenario.find_all_a_href
            (text (Scenario.listing_page 6))) = 6%nat /\
  fst (fst run_B) = Ret Scraper.PyNone /\
  length (Scraper.urls (fst (snd (fst run_B))))
  = (length (Scraper.urls (fst after_A)) + 2)%nat.
Proof. cbv zeta. vm_compute. repeat split. Qed.

(** C2, amended. On realtor.com, when [_request] starts with the counter
    at [c], [0 <= c < N] for the depth [N], and the fetched page has more
    than [N] detail links, the frontier gains the first [N - c] of them,
    in order; the next page is then fetched, after which the counter is
    set to 0 and the page cursor to 2, and [_request] returns [None], so
    that [navigate] goes on with the next location. *)
Theorem depth_limit_exit (format : string -> string -> string)
  (find_all_a_href : string -> list string) (find_error_404 : string -> bool)
  (BASE_URL_MAP : string -> option string) (base url location : string)
  (sw sw1 sw3 : Scraper.Scraper * World) (e1 e3 : list event)
  (resp : Response) (soup : option string) :
  BASE_URL_MAP "realtor.com"%string = Some base ->
  0 <= Scraper.current_counter (fst sw) < Scraper.depth (fst sw) ->
  Scraper._make_request format url (Some location) true sw
  = (Ret (Some resp), sw1, e1) ->
  Scraper.depth (fst sw)
  < Z.of_nat (length (detail_links find_all_a_href (text resp))) ->
  Scraper._next_page format find_error_404 "realtor.com" location url
    (collect base (detail_links find_all_a_href (text resp)) (fst sw1), snd sw1)
  = (Ret soup, sw3, e3) ->
  let gained :=
    firstn (budget (fst sw)) (detail_links find_all_a_href (text resp)) in
  let final := (reset_cursor (fst sw3), snd sw3) in
  Scraper._request format find_all_a_href find_error_404 BASE_URL_MAP
    "realtor.com" url location sw
  = (Ret Scraper.PyNone, final, e1 ++ e3) /\
  Scraper.urls (fst final)
  = Scraper.urls (fst sw) ++ map (String.append base) gained /\
  Z.of_nat (length gained)
  = Scraper.depth (fst sw) - Scraper.current_counter (fst sw) /\
  Scraper.current_counter (fst final) = 0 /\
  Scraper.current_page (fst final) = 2 /\
  forall rest,
    Scraper.navigate_loop format find_all_a_href find_error_404 BASE_URL_MAP
      "realtor.com" url (location :: rest) sw
    = match Scraper.navigate_loop format find_all_a_href find_error_404
              BASE_URL_MAP "realtor.com" url rest final with
      | (r, sw', e) => (r, sw', (e1 ++ e3) ++ e)
      end.
Proof.
  intros Hbase Hc Hreq Hmany Hnext gained final.
  pose proof Hreq as Hframe. apply _make_request_frame in Hframe.
  destruct Hframe as [Hu1 [_ [_ [Hc1 Hd1]]]].
  pose proof Hnext as Hpage. apply _next_page_returns in Hpage.
  cbn [fst snd] in Hpage. destruct Hpage as [Hu3 [Hc3 [Hd3 _]]].
  set (links := detail_links find_all_a_href (text resp)) in *.
  assert (Hbudget : budget (fst sw1) = budget (fst sw)).
  { unfold budget. rewrite Hc1, Hd1. reflexivity. }
  assert (Hlen : length gained = budget (fst sw)).
  { unfold gained. rewrite length_firstn. unfold budget in *. lia. }
  assert (Hcol :
    Scraper._collect_urls find_all_a_href BASE_URL_MAP (Some (text resp))
      "realtor.com" sw1
    = (Ret tt, (collect base links (fst sw1), snd sw1), [])).
  { unfold Scraper._collect_urls. destruct sw1 as [s1 w1].
    apply collect_links_spec. exact Hbase. }
  assert (Hurls : Scraper.urls (collect base links (fst sw1))
                  = Scraper.urls (fst sw) ++ map (String.append base) gained).
  { unfold collect. cbn. rewrite Hbudget, Hu1. reflexivity. }
  assert (Hcount : Scraper.current_counter (collect base links (fst sw1))
                   = Scraper.depth (fst sw)).
  { unfold collect. cbn. rewrite Hbudget, length_map. fold gained.
    rewrite Hlen, Hc1. unfold budget. lia. }
  assert (Hdepth : Scraper.depth (collect base links (fst sw1))
                   = Scraper.depth (fst sw)).
  { unfold collect. cbn. exact Hd1. }
  assert (Hrun :
    Scraper._request format find_all_a_href find_error_404 BASE_URL_MAP
      "realtor.com" url location sw
    = (Ret Scraper.PyNone, final, e1 ++ e3)).
  { erewrite _request_decides by eassumption.
    rewrite Hc3, Hd3, Hu3, Hcount, Hdepth, Hurls, Hu1.
    rewrite Z.ltb_irrefl. cbn [andb].
    replace (length (Scraper.urls (fst sw) ++ map (String.append base) gained)
             <=? length (Scraper.urls (fst sw)))%nat with false.
    - reflexivity.
    - symmetry. apply Nat.leb_gt.
      rewrite length_app, length_map, Hlen. unfold budget. lia. }
  split; [exact Hrun|].
  split; [unfold final, reset_cursor; cbn; rewrite Hu3; exact Hurls|].
  split; [rewrite Hlen; unfold budget; lia|].
  split; [reflexivity|]. split; [reflexivity|].
  intros rest. cbn [Scraper.navigate_loop]. unfold bind at 1.
  rewrite Hrun. reflexivity.
Qed.

(** A fresh crawl with a depth of 3 whose first page has 5 detail links. *)
Lemma depth_limit_exit_witness :
  let sw0 := (Scraper.init 3 60,
              Scenario.crawl [Scenario.listing_page 5; Scenario.listing_page 0]) in
  let run :=
    Scraper._request Scenario.format Scenario.find_all_a_href
      Scenario.find_error_404 Scenario.BASE_URL_MAP
      "realtor.com" "http://site/" "A" sw0 in
  fst (fst run) = Ret Scraper.PyNone /\
  length (Scraper.urls (fst (snd (fst run)))) = 3%nat /\
  Scraper.current_counter (fst (snd (fst run))) = 0 /\
  Scraper.current_page (fst (snd (fst run))) = 2.
Proof.
  cbv zeta.
  set (sw0 := (Scraper.init 3 60,
              Scenario.crawl [Scenario.listing_page 5; Scenario.listing_page 0])).
  set (req := Scraper._make_request Scenario.format "http://site/"
                (Some "A"%string) true sw0).
  set (sw1 := snd (fst req)).
  set (nxt := Scraper._next_page Scenario.format Scenario.find_error_404
                "realtor.com" "A" "http://site/"
                (collect "https://www.realtor.com"
                   (detail_links Scenario.find_all_a_href
                      (text (Scenario.listing_page 5))) (fst sw1), snd sw1)).
  assert (H1 : Scenario.BASE_URL_MAP "realtor.com"
               = Some "https://www.realtor.com"%string) by reflexivity.
  assert (H2 : 0 <= Scraper.current_counter (fst sw0) < Scraper.depth (fst sw0))
    by (cbn; lia).
  assert (H3 : req = (Ret (Some (Scenario.listing_page 5)), sw1, snd req))
    by (vm_compute; reflexivity).
  assert (H4 : Scraper.depth (fst sw0)
               < Z.of_nat (length (detail_links Scenario.find_all_a_href
                                     (text (Scenario.listing_page 5)))))
    by (vm_compute; reflexivity).
  assert (H5 : nxt = (Ret (Some "/about"%string), snd (fst nxt), snd nxt))
    by (vm_compute; reflexivity).
  destruct (depth_limit_exit Scenario.format Scenario.find_all_a_href
              Scenario.find_error_404 Scenario.BASE_URL_MAP
              "https://www.realtor.com" "http://site/" "A"
              sw0 sw1 (snd (fst nxt)) (snd req) (snd nxt)
              (Scenario.listing_page 5) (Some "/about"%string)
              H1 H2 H3 H4 H5)
    as [Hrun [Hurls [Hlen [Hcount [Hpage _]]]]].
  rewrite Hrun. cbn [fst snd] in Hurls, Hcount, Hpage |- *.
  split; [reflexivity|]. split; [| split; [exact Hcount | exact Hpage]].
  rewrite Hurls. vm_compute. reflexivity.
Defined.

Lemma None_result_crashes_callers_witness :
  let sw0 := (Scraper.set_urls (Scraper.init 5 60) ["http://site/a"%string],
              Scenario.failing TooManyRedirects) in
  fst (fst (Scraper._request Scenario.format Scenario.find_all_a_href
              Scenario.find_error_404 Scenario.BASE_URL_MAP
              "realtor.com" "http://site/" "A" sw0))
  = Raise AttributeError /\
  fst (fst (Scraper.scrape Scenario.format sw0)) = Raise AttributeError.
Proof.
  cbv zeta.
  set (sw0 := (Scraper.set_urls (Scraper.init 5 60) ["http://site/a"%string],
               Scenario.failing TooManyRedirects)).
  destruct (None_result_crashes_callers Scenario.format
              Scenario.find_all_a_href Scenario.find_error_404
              Scenario.BASE_URL_MAP) as [Hreq [Hscrape _]].
  set (r1 := Scraper._make_request Scenario.format "http://site/"
               (Some "A"%string) true sw0).
  set (r2 := Scraper._make_request Scenario.format "http://site/a" None true sw0).
  assert (H1 : r1 = (Ret None, snd (fst r1), snd r1)) by (vm_compute; reflexivity).
  assert (H2 : r2 = (Ret None, snd (fst r2), snd r2)) by (vm_compute; reflexivity).
  split.
  - rewrite (Hreq "realtor.com"%string _ _ _ _ _ H1). reflexivity.
  - rewrite (Hscrape "http://site/a"%string [] sw0 _ _ eq_refl H2). reflexivity.
Defined.

(** * Further properties of the code *)

(** ** The rate limiter, under load and misconfigured *)

Lemma poll_full rate_limit delta t0 rest clock :
  rate_limit <= Z.of_nat (length (t0 :: rest)) ->
  Forall (fun now => now - t0 <= delta) clock ->
  RateLimiter.poll rate_limit delta clock (t0 :: rest) = None.
Proof.
  intros Hfull Hall. induction Hall as [|now clock Hnow _ IH]; [reflexivity|].
  cbn [RateLimiter.poll RateLimiter.popleft_expired].
  destruct (Z.gtb_spec (now - t0) delta); [lia|].
  destruct (Z.ltb_spec (Z.of_nat (length (t0 :: rest))) rate_limit); [lia|].
  exact IH.
Qed.

(** X1. While the window is full ([rate_limit] timestamps or more) and
    no reading of the clock is later than the oldest timestamp by more
    than [rate_second_delta], [limit] does not return: nothing expires
    and no request is let through, however many readings there are. *)
Theorem limit_waits_while_full (l : RateLimiter.APIRateLimiter)
  (rate_limit delta t0 : Z) (rest clock : list Z) :
  RateLimiter._rate_limit l = Some rate_limit -> rate_limit <> 0 ->
  RateLimiter._rate_second_delta l = Some delta -> delta <> 0 ->
  RateLimiter._request_times l = t0 :: rest ->
  rate_limit <= Z.of_nat (length (t0 :: rest)) ->
  Forall (fun now => now - t0 <= delta) clock ->
  RateLimiter.limit l clock = None.
Proof.
  intros Hrl Hrl0 Hd Hd0 Ht Hfull Hall. unfold RateLimiter.limit.
  rewrite Hrl, Hd, Ht. cbn [truthy].
  destruct (Z.eqb_spec rate_limit 0); [contradiction|].
  destruct (Z.eqb_spec delta 0); [contradiction|]. cbn [negb andb].
  rewrite (poll_full _ _ _ _ _ Hfull Hall). reflexivity.
Qed.

Lemma limit_waits_while_full_witness :
  RateLimiter.limit (RateLimiter.mkAPIRateLimiter (Some 2) (Some 10) [1; 3])
                    [4; 5; 9; 11] = None.
Proof.
  apply (limit_waits_while_full _ 2 10 1 [3] [4; 5; 9; 11]);
    try reflexivity; try lia.
  repeat constructor; lia.
Defined.

Lemma poll_negative rate_limit delta clock : forall times,
  rate_limit < 0 -> RateLimiter.poll rate_limit delta clock times = None.
Proof.
  induction clock as [|now clock IH]; intros times Hneg; [reflexivity|].
  cbn [RateLimiter.poll].
  destruct (Z.ltb_spec (Z.of_nat (length (RateLimiter.popleft_expired now delta times)))
              rate_limit); [lia|].
  apply IH. exact Hneg.
Qed.

(** X2. A negative [rate_limit] passes the truthiness guard but can never
    exceed the length of the window: [limit] and [async_limit] then poll
    forever, whatever the window holds and whatever the clock reads. *)
Theorem limit_negative_rate_never_returns (l : RateLimiter.APIRateLimiter)
  (rate_limit delta : Z) (clock : list Z) :
  RateLimiter._rate_limit l = Some rate_limit -> rate_limit < 0 ->
  RateLimiter._rate_second_delta l = Some delta -> delta <> 0 ->
  RateLimiter.limit l clock = None /\ RateLimiter.async_limit l clock = None.
Proof.
  intros Hrl Hneg Hd Hd0.
  split; [| change (RateLimiter.limit l clock = None)];
    unfold RateLimiter.limit; rewrite Hrl, Hd; cbn [truthy];
    destruct (Z.eqb_spec rate_limit 0); try lia;
    destruct (Z.eqb_spec delta 0); try contradiction; cbn [negb andb];
    rewrite (poll_negative _ _ _ _ Hneg); reflexivity.
Qed.

Lemma limit_negative_rate_never_returns_witness :
  RateLimiter.limit (RateLimiter.init (Some (-1)) (Some 1)) [0; 5; 10; 15] = None /\
  RateLimiter.async_limit (RateLimiter.init (Some (-1)) (Some 1)) [0; 5; 10; 15]
  = None.
Proof.
  apply (limit_negative_rate_never_returns _ (-1) 1); try reflexivity; lia.
Defined.

(** X3. With positive settings, [limit] returns as soon as the clock has
    shown a reading later by more than [rate_second_delta] than every
    timestamp of the window and one more reading follows it (the one
    recorded): the wait is bounded by the window. *)
Theorem limit_returns_after_window (l : RateLimiter.APIRateLimiter)
  (rate_limit delta : Z) (pre : list Z) (now t : Z) (rest : list Z) :
  0 < rate_limit -> 0 < delta ->
  RateLimiter._rate_limit l = Some rate_limit ->
  RateLimiter._rate_second_delta l = Some delta ->
  Forall (fun h => h + delta < now) (RateLimiter._request_times l) ->
  exists l' clock',
    RateLimiter.limit l (pre ++ now :: t :: rest) = Some (l', clock').
Proof.
  intros Hrl Hd Erl Ed Hexp.
  apply (limit_finishes rate_limit delta Hrl Hd); assumption.
Qed.

Lemma limit_returns_after_window_witness :
  exists l' clock',
    RateLimiter.limit (RateLimiter.mkAPIRateLimiter (Some 2) (Some 10) [1; 3])
                      ([4; 5] ++ 14 :: 15 :: [16]) = Some (l', clock').
Proof.
  apply (limit_returns_after_window _ 2 10 [4; 5] 14 15 [16]);
    try reflexivity; try lia.
  repeat constructor; cbn; lia.
Defined.

(** ** The proxy pool: failed refreshes and evictions *)

Lemma refresh_due_test pool now :
  refresh_due pool now ->
  (match Proxy.last_rotate_time pool with
   | Some last => Proxy.offset pool <=? now - last
   | None => true
   end || (Z.of_nat (length (Proxy.proxy_list pool)) <? 5)) = true.
Proof.
  intros [H | [[l0 [H H']] | H]].
  - rewrite H. reflexivity.
  - rewrite H. apply orb_true_iff. left. apply Z.leb_le. exact H'.
  - apply orb_true_iff. right. apply Z.ltb_lt. lia.
Qed.

(** X4. When a refresh is due and fetching the proxy listing raises,
    [rotate_proxies] lets the exception through after one reading of the
    clock: the pool and the time of its last refresh stay as they were,
    so the next call tries again. *)
Theorem rotate_proxies_failed_listing (pool : Proxy.Proxy) (w : World)
  (now : Z) (clock' : list Z) (e : exn) (ls : list (exn + list Row)) :
  clock w = now :: clock' ->
  refresh_due pool now ->
  listings w = inl e :: ls ->
  Proxy.rotate_proxies (pool, w)
  = (Raise e, (pool, mkWorld clock' ls (choices w) (transport w)), []).
Proof.
  intros Hclock Hdue Hls.
  destruct pool as [pl last off], w as [ck lst ch tr].
  cbn in Hclock, Hls. subst ck lst.
  pose proof (refresh_due_test _ _ Hdue) as Hb. cbn in Hb.
  unfold Proxy.rotate_proxies, Proxy._check_time, Proxy.fetch_listing, bind,
    time_time, gets, ret.
  cbn. rewrite Hb. reflexivity.
Qed.

Lemma rotate_proxies_failed_listing_witness :
  let pool := Proxy.mkProxy [("10.0.0.1"%string, 1)] (Some 0) 60 in
  Proxy.rotate_proxies
    (pool, mkWorld [10; 11] [inl (RequestException "ConnectionError")] [] [])
  = (Raise (RequestException "ConnectionError"),
     (pool, mkWorld [11] [] [] []), []).
Proof.
  cbv zeta.
  apply (rotate_proxies_failed_listing _
           (mkWorld [10; 11] [inl (RequestException "ConnectionError")] [] [])
           10 [11] _ [] eq_refl).
  - right. right. cbn. lia.
  - reflexivity.
Defined.




Lemma occurrences_list_remove_other p q l :
  q <> p ->
  occurrences q (Proxy.list_remove p l) = occurrences q l.
Proof.
  intros Hne. unfold occurrences. induction l as [|x l IH]; [reflexivity|].
  cbn [Proxy.list_remove]. destruct (entry_eqb x p) eqn:E.
  - apply entry_eqb_eq in E. subst x. cbn [filter].
    destruct (entry_eqb q p) eqn:E'; [| reflexivity].
    apply entry_eqb_eq in E'. contradiction.
  - cbn [filter]. destruct (entry_eqb q x); cbn [length]; rewrite IH; reflexivity.
Qed.

(** X6. [remove_bad_proxy] touches one entry only: every other entry is
    in the pool as often as before, the evicted one once less (or still
    not at all), and the refresh time and the offset are kept. *)
Theorem evict_spares_other_entries (p : ProxyEntry) (pool : Proxy.Proxy)
  (w : World) :
  let after := fst (snd (fst (Proxy.remove_bad_proxy p (pool, w)))) in
  (forall q, q <> p ->
     occurrences q (Proxy.proxy_list after)
     = occurrences q (Proxy.proxy_list pool)) /\
  occurrences p (Proxy.proxy_list after)
  = Nat.pred (occurrences p (Proxy.proxy_list pool)) /\
  Proxy.last_rotate_time after = Proxy.last_rotate_time pool /\
  Proxy.offset after = Proxy.offset pool.
Proof.
  unfold Proxy.remove_bad_proxy, Proxy._remove_proxy, bind, gets, modify, emit.
  cbn.
  destruct (Proxy.contains p (Proxy.proxy_list pool)) eqn:Hc.
  - rewrite (contains_nonempty _ _ Hc). cbn. repeat split.
    + intros q Hq. apply occurrences_list_remove_other. exact Hq.
    + rewrite (occurrences_list_remove _ _ Hc). reflexivity.
  - rewrite andb_false_r. cbn. repeat split.
    rewrite contains_occurrences in Hc.
    destruct (occurrences p (Proxy.proxy_list pool)); [reflexivity | discriminate].
Qed.

(** ** The request layer: what is retried and what is evicted *)

Section MoreRequestFacts.

Variable format : string -> string -> string.

Lemma evictions_app e1 e2 : evictions (e1 ++ e2) = evictions e1 ++ evictions e2.
Proof.
  induction e1 as [|ev e1 IH]; cbn; [reflexivity|].
  destruct ev; cbn; rewrite ?IH; reflexivity.
Qed.

Lemma timed_out_proxies_app e1 e2 :
  timed_out_proxies (e1 ++ e2) = timed_out_proxies e1 ++ timed_out_proxies e2.
Proof. unfold timed_out_proxies. apply flat_map_app. Qed.

Lemma no_outcome_no_timed_out evs :
  outcomes evs = [] -> timed_out_proxies evs = [].
Proof.
  induction evs as [|ev evs IH]; [reflexivity|].
  destruct ev; cbn; try exact IH. discriminate.
Qed.

Lemma attempt_evictions u res evs :
  attempt_shape u res evs ->
  evictions evs = map (fun p => (p, true)) (timed_out_proxies evs).
Proof.
  intros H. inversion H; subst; try reflexivity.
  - rewrite no_outcome_no_timed_out by assumption. assumption.
  - destruct e; try reflexivity. contradiction.
  - destruct e; try reflexivity. discriminate.
Qed.

Lemma retry_evictions u n res evs :
  retry_shape u n res evs ->
  evictions evs = map (fun p => (p, true)) (timed_out_proxies evs).
Proof.
  induction 1 as [| n res evs Hs _ | n evs1 res evs2 Hs _ IH].
  - reflexivity.
  - eapply attempt_evictions; eassumption.
  - rewrite evictions_app, timed_out_proxies_app, map_app, IH.
    f_equal. eapply attempt_evictions; eassumption.
Qed.

Lemma _make_request_shape url location sw :
  retry_shape (current_url format url location) 3
    (fst (fst (Scraper._make_request format url location true sw)))
    (snd (Scraper._make_request format url location true sw)).
Proof.
  destruct (Scraper._make_request format url location true sw)
    as [[res sw'] evs] eqn:Hrun.
  unfold Scraper._make_request in Hrun.
  apply retry_body_shape in Hrun. cbn. tauto.
Qed.

Lemma attempt_raises_timeout_once u evs :
  attempt_shape u (Raise Timeout) evs -> outcomes evs = [inl Timeout] ->
  exists p,
    evs = [Selected p; Entered; Sent u (Some p) (inl Timeout); Evicted p true].
Proof.
  intros H Ho. destruct (attempt_timed_out _ _ H) as [Hn | Hp]; [| exact Hp].
  rewrite Hn in Ho. discriminate.
Qed.

(** the result of a run whose GETs all timed out *)
Lemma retry_all_timeouts u n : forall res evs,
  retry_shape u n res evs ->
  outcomes evs = repeat (inl Timeout) n ->
  res = Raise RetryError /\ length (evictions evs) = n.
Proof.
  induction n as [|n IH]; intros res evs Hs Ho.
  - inversion Hs; subst. split; reflexivity.
  - inversion Hs as [| n' r e Ha Hne | n' e1 r e2 Ha1 Hrest]; subst.
    + exfalso. cbn [repeat] in Ho.
      inversion Ha; subst; cbn in Ho; congruence.
    + rewrite outcomes_app in Ho. cbn [repeat] in Ho.
      destruct (attempt_timed_out _ _ Ha1) as [Hn | [p ->]].
      * rewrite Hn in Ho. cbn in Ho.
        apply retry_shape_outcomes in Hrest. rewrite Ho in Hrest.
        cbn in Hrest. rewrite repeat_length in Hrest. lia.
      * cbn in Ho. inversion Ho as [Ho'].
        destruct (IH _ _ Hrest Ho') as [Hres Hlen].
        split; [exact Hres|]. cbn. rewrite Hlen. reflexivity.
Qed.

End MoreRequestFacts.

(** X7. In every run of [_make_request] through a proxy, the proxies
    evicted are exactly the proxies of the GETs that timed out, in that
    order, and each of them was found in the pool when it was evicted. *)
Theorem evictions_follow_timeouts (format : string -> string -> string)
  (url : string) (location : option string) (sw : Scraper.Scraper * World) :
  let evs := snd (Scraper._make_request format url location true sw) in
  evictions evs = map (fun p => (p, true)) (timed_out_proxies evs).
Proof.
  cbv zeta. pose proof (_make_request_shape format url location sw) as Hs.
  eapply retry_evictions; exact Hs.
Qed.

(** X8. When the three GETs of a run of [_make_request] through a proxy
    all time out, the call raises tenacity's [RetryError] (not the
    [Timeout]), three proxies having been evicted. *)
Theorem three_timeouts_raise_RetryError (format : string -> string -> string)
  (url : string) (location : option string) (sw : Scraper.Scraper * World) :
  let run := Scraper._make_request format url location true sw in
  outcomes (snd run) = [inl Timeout; inl Timeout; inl Timeout] ->
  fst (fst run) = Raise RetryError /\ length (evictions (snd run)) = 3%nat.
Proof.
  cbv zeta. intros Ho.
  pose proof (_make_request_shape format url location sw) as Hs.
  exact (retry_all_timeouts _ 3 _ _ Hs Ho).
Qed.

Lemma three_timeouts_raise_RetryError_witness :
  let run := Scraper._make_request Scenario.format "http://site/" None true
               (Scraper.init 50 60,
                mkWorld (repeat 100 10) [inr Scenario.rows]
                  [0%nat; 1%nat; 2%nat]
                  [inl Timeout; inl Timeout; inl Timeout]) in
  fst (fst run) = Raise RetryError /\ length (evictions (snd run)) = 3%nat.
Proof.
  cbv zeta.
  apply (three_timeouts_raise_RetryError Scenario.format "http://site/" None
           (Scraper.init 50 60,
            mkWorld (repeat 100 10) [inr Scenario.rows] [0%nat; 1%nat; 2%nat]
              [inl Timeout; inl Timeout; inl Timeout])).
  vm_compute. reflexivity.
Defined.

Section DirectFacts.

Variable format : string -> string -> string.



Lemma retry_first_failure u n e rest : forall res evs,
  retry_shape u n res evs ->
  outcomes evs = inl e :: rest -> e <> Timeout ->
  rest = [] /\
  res = (if Scraper.is_RequestException e then Ret None else Raise e) /\
  evictions evs = [].
Proof.
  induction n as [|n IH]; intros res evs Hs Ho Hne.
  - inversion Hs; subst. discriminate.
  - inversion Hs as [| n' r ev Ha Hnt | n' e1 r e2 Ha1 Hrest]; subst.
    + inversion Ha; subst; cbn in Ho; try congruence.
      * inversion Ho; subst. rewrite H. repeat split.
      * inversion Ho; subst. rewrite H. repeat split.
    + rewrite outcomes_app in Ho.
      destruct (attempt_timed_out _ _ Ha1) as [Hn | [p ->]].
      * rewrite Hn in Ho. cbn in Ho.
        destruct (IH _ _ Hrest Ho Hne) as [Hnil [Hres Hev]].
        split; [exact Hnil|]. split; [exact Hres|].
        rewrite evictions_app, Hev, app_nil_r.
        inversion Ha1; subst; (assumption || discriminate).
      * cbn in Ho. inversion Ho; subst. contradiction.
Qed.


End DirectFacts.



(** X10. Through a proxy, when the first GET of a call fails with
    anything but a [Timeout], it is the only GET of the call: nothing is
    sent after it and no proxy is evicted; a [RequestException] is
    swallowed into [None], any other exception propagates. *)
Theorem failed_get_is_not_retried (format : string -> string -> string)
  (url : string) (location : option string) (sw : Scraper.Scraper * World)
  (e : exn) (rest : list (exn + Response)) :
  let run := Scraper._make_request format url location true sw in
  outcomes (snd run) = inl e :: rest -> e <> Timeout ->
  rest = [] /\
  fst (fst run) = (if Scraper.is_RequestException e then Ret None else Raise e) /\
  evictions (snd run) = [].
Proof.
  cbv zeta. intros Ho Hne.
  pose proof (_make_request_shape format url location sw) as Hs.
  exact (retry_first_failure _ 3 e rest _ _ Hs Ho Hne).
Qed.

Lemma failed_get_is_not_retried_witness :
  let run := Scraper._make_request Scenario.format "http://site/" None true
               (Scraper.init 50 60,
                mkWorld (repeat 100 10) [inr Scenario.rows]
                  [0%nat; 1%nat; 2%nat]
                  [inl (RequestException "ConnectionError"); inr Scenario.page;
                   inr Scenario.page]) in
  outcomes (snd run) = [inl (RequestException "ConnectionError")] /\
  fst (fst run) = Ret None /\
  evictions (snd run) = [] /\
  transport (snd (snd (fst run))) = [inr Scenario.page; inr Scenario.page].
Proof.
  cbv zeta.
  set (run := Scraper._make_request Scenario.format "http://site/" None true
               (Scraper.init 50 60,
                mkWorld (repeat 100 10) [inr Scenario.rows]
                  [0%nat; 1%nat; 2%nat]
                  [inl (RequestException "ConnectionError"); inr Scenario.page;
                   inr Scenario.page])).
  assert (Ho : outcomes (snd run)
               = [inl (RequestException "ConnectionError")])
    by (vm_compute; reflexivity).
  assert (Hne : RequestException "ConnectionError" <> Timeout)
    by discriminate.
  destruct (failed_get_is_not_retried Scenario.format "http://site/" None _
              (RequestException "ConnectionError") [] Ho Hne)
    as [_ [Hres Hev]].
  split; [exact Ho|]. split; [exact Hres|]. split; [exact Hev|].
  vm_compute. reflexivity.
Defined.

(** ** The pagination loop: what a crawl can do to the frontier *)

Section KeepsFacts.

Variable R : Scraper.Scraper -> Scraper.Scraper -> Prop.
Hypothesis R_refl : forall s, R s s.
Hypothesis R_trans : forall s1 s2 s3, R s1 s2 -> R s2 s3 -> R s1 s3.

Lemma keeps_ret {A} (a : A) : keeps R (ret a).
Proof. intros sw. apply R_refl. Qed.

Lemma keeps_raise {A} (e : exn) : keeps R (@raise _ A e).
Proof. intros sw. apply R_refl. Qed.

Lemma keeps_gets {A} (f : Scraper.Scraper * World -> A) : keeps R (gets f).
Proof. intros sw. apply R_refl. Qed.

Lemma keeps_modify (f : Scraper.Scraper * World -> Scraper.Scraper * World) :
  (forall sw, R (fst sw) (fst (f sw))) -> keeps R (modify f).
Proof. intros H sw. apply H. Qed.

Lemma keeps_bind {A B} (m : M (Scraper.Scraper * World) A)
  (k : A -> M (Scraper.Scraper * World) B) :
  keeps R m -> (forall a, keeps R (k a)) -> keeps R (bind m k).
Proof.
  intros Hm Hk sw. unfold bind. specialize (Hm sw).
  destruct (m sw) as [[r sw1] e1]. cbn [fst snd] in Hm.
  destruct r as [a|e|]; try exact Hm.
  specialize (Hk a sw1). destruct (k a sw1) as [[r2 sw2] e2].
  cbn [fst snd] in *. eapply R_trans; eassumption.
Qed.

End KeepsFacts.

Section GrowthFacts.

Variable format : string -> string -> string.
Variable find_all_a_href : string -> list string.
Variable find_error_404 : string -> bool.
Variable BASE_URL_MAP : string -> option string.
Variable site : string.

Lemma grows_refl s : grows BASE_URL_MAP site s s.
Proof. exists []. rewrite app_nil_r. repeat split. constructor. Qed.

Lemma grows_trans s1 s2 s3 :
  grows BASE_URL_MAP site s1 s2 -> grows BASE_URL_MAP site s2 s3 ->
  grows BASE_URL_MAP site s1 s3.
Proof.
  intros [a1 [H1 [F1 D1]]] [a2 [H2 [F2 D2]]]. exists (a1 ++ a2).
  rewrite H2, H1, app_assoc. repeat split; [| congruence].
  apply Forall_app. split; assumption.
Qed.

Lemma grows_same_urls s s' :
  Scraper.urls s' = Scraper.urls s -> Scraper.depth s' = Scraper.depth s ->
  grows BASE_URL_MAP site s s'.
Proof.
  intros Hu Hd. exists []. rewrite app_nil_r.
  repeat split; [exact Hu | constructor | exact Hd].
Qed.

Lemma cursor_kept_grows s s' :
  cursor_kept s s' -> grows BASE_URL_MAP site s s'.
Proof.
  intros [Hu [_ [_ [_ Hd]]]]. exists []. rewrite app_nil_r.
  repeat split; [exact Hu | constructor | exact Hd].
Qed.

Lemma _make_request_grows url location :
  keeps (grows BASE_URL_MAP site)
        (Scraper._make_request format url location true).
Proof.
  intros sw.
  destruct (Scraper._make_request format url location true sw)
    as [[r sw'] evs] eqn:Hrun.
  apply _make_request_frame in Hrun. cbn. apply cursor_kept_grows. exact Hrun.
Qed.

Lemma collect_links_grows links :
  keeps (grows BASE_URL_MAP site)
        (Scraper.collect_links BASE_URL_MAP site links).
Proof.
  induction links as [|href rest IH]; cbn [Scraper.collect_links].
  - apply keeps_ret. exact grows_refl.
  - apply (keeps_bind _ grows_trans);
      [apply keeps_gets; exact grows_refl|].
    intros self. destruct (_ >=? _); [apply keeps_ret; exact grows_refl|].
    destruct (String.prefix Scraper.detail_prefix href) eqn:Hp; [| exact IH].
    destruct (BASE_URL_MAP site) as [base|] eqn:Hb;
      [| apply keeps_raise; exact grows_refl].
    apply (keeps_bind _ grows_trans).
    + apply keeps_modify. intros sw. cbn.
      exists [(base ++ href)%string]. repeat split.
      constructor; [| constructor]. exists base, href. auto.
    + intros _. apply (keeps_bind _ grows_trans); [| intros _; exact IH].
      apply keeps_modify. intros sw. apply grows_same_urls; reflexivity.
Qed.

Lemma _next_page_grows location url :
  keeps (grows BASE_URL_MAP site)
        (Scraper._next_page format find_error_404 site location url).
Proof.
  unfold Scraper._next_page.
  destruct (String.eqb site "realtor.com"); [| apply keeps_ret; exact grows_refl].
  apply (keeps_bind _ grows_trans);
    [apply keeps_gets; exact grows_refl|]. intros page.
  apply (keeps_bind _ grows_trans); [apply _make_request_grows|].
  intros resp.
  apply (keeps_bind _ grows_trans).
  { destruct resp; [apply keeps_ret | apply keeps_raise]; exact grows_refl. }
  intros soup.
  apply (keeps_bind _ grows_trans).
  { apply keeps_modify. intros sw. apply grows_same_urls; reflexivity. }
  intros _. destruct (negb _); apply keeps_ret; exact grows_refl.
Qed.

Lemma _request_grows url location :
  keeps (grows BASE_URL_MAP site)
        (Scraper._request format find_all_a_href find_error_404 BASE_URL_MAP
                          site url location).
Proof.
  unfold Scraper._request.
  apply (keeps_bind _ grows_trans); [apply _make_request_grows|].
  intros resp.
  apply (keeps_bind _ grows_trans).
  { destruct resp; [apply keeps_ret | apply keeps_raise]; exact grows_refl. }
  intros soup.
  apply (keeps_bind _ grows_trans);
    [apply keeps_gets; exact grows_refl|]. intros prev.
  destruct (String.eqb site "realtor.com"); [| apply keeps_ret; exact grows_refl].
  apply (keeps_bind _ grows_trans); [apply collect_links_grows|].
  intros _.
  apply (keeps_bind _ grows_trans); [apply _next_page_grows|].
  intros _.
  apply (keeps_bind _ grows_trans);
    [apply keeps_gets; exact grows_refl|]. intros self.
  destruct (_ && _); [apply keeps_ret; exact grows_refl|].
  destruct (_ <=? _)%nat; [apply keeps_ret; exact grows_refl|].
  apply (keeps_bind _ grows_trans).
  { apply keeps_modify. intros sw. apply grows_same_urls; reflexivity. }
  intros _. apply (keeps_bind _ grows_trans).
  { apply keeps_modify. intros sw. apply grows_same_urls; reflexivity. }
  intros _. apply keeps_ret. exact grows_refl.
Qed.

Lemma navigate_loop_grows url locations :
  keeps (grows BASE_URL_MAP site)
        (Scraper.navigate_loop format find_all_a_href find_error_404
                               BASE_URL_MAP site url locations).
Proof.
  induction locations as [|location rest IH]; cbn [Scraper.navigate_loop].
  - apply keeps_ret. exact grows_refl.
  - apply (keeps_bind _ grows_trans); [apply _request_grows|].
    intros [| |]; try exact IH. apply keeps_ret. exact grows_refl.
Qed.

End GrowthFacts.

(** X11. Whatever the site, the locations and the outside world, and
    however it ends, [navigate] only appends to the frontier, what it
    appends are base URL + detail-page hrefs, and the depth budget is
    not changed. *)
Theorem navigate_only_appends_detail_urls
  (format : string -> string -> string)
  (find_all_a_href : string -> list string) (find_error_404 : string -> bool)
  (BASE_URL_MAP : string -> option string)
  (site url : string) (locations : list string)
  (sw : Scraper.Scraper * World) :
  let final :=
    fst (snd (fst (Scraper.navigate format find_all_a_href find_error_404
                     BASE_URL_MAP site url locations sw))) in
  exists added,
    Scraper.urls final = Scraper.urls (fst sw) ++ added /\
    Forall (detail_url BASE_URL_MAP site) added /\
    Scraper.depth final = Scraper.depth (fst sw).
Proof.
  cbv zeta. unfold Scraper.navigate.
  apply (keeps_bind _ (grows_trans BASE_URL_MAP site)).
  - apply navigate_loop_grows.
  - intros _. apply keeps_ret. apply grows_refl.
Qed.

Section DecisionFacts.

Variable format : string -> string -> string.
Variable find_all_a_href : string -> list string.
Variable find_error_404 : string -> bool.
Variable BASE_URL_MAP : string -> option string.

Lemma collect_links_no_budget site links s w :
  Scraper.depth s <= Scraper.current_counter s ->
  Scraper.collect_links BASE_URL_MAP site links (s, w) = (Ret tt, (s, w), []).
Proof.
  intros Hfull. destruct links as [|href rest]; [reflexivity|].
  cbn [Scraper.collect_links]. unfold bind, gets. cbn [fst snd].
  destruct (Z.geb_spec (Scraper.current_counter s) (Scraper.depth s)); [| lia].
  reflexivity.
Qed.

(** The first detail link of a page, met with budget left and no base
    URL for the site. *)
Lemma collect_links_KeyError site links : forall s w,
  BASE_URL_MAP site = None ->
  Scraper.current_counter s < Scraper.depth s ->
  filter (String.prefix Scraper.detail_prefix) links <> [] ->
  Scraper.collect_links BASE_URL_MAP site links (s, w)
  = (Raise KeyError, (s, w), []).
Proof.
  induction links as [|href rest IH]; intros s w Hbase Hroom Hsome;
    [contradiction|].
  cbn [Scraper.collect_links]. unfold bind at 1, gets at 1. cbn [fst snd].
  destruct (Z.geb_spec (Scraper.current_counter s) (Scraper.depth s)); [lia|].
  cbn [filter] in Hsome.
  destruct (String.prefix Scraper.detail_prefix href).
  - rewrite Hbase. reflexivity.
  - rewrite IH by assumption. reflexivity.
Qed.

Lemma collect_all base links s :
  (length links <= budget s)%nat ->
  Scraper.urls (collect base links s)
  = Scraper.urls s ++ map (String.append base) links /\
  Scraper.current_counter (collect base links s)
  = Scraper.current_counter s + Z.of_nat (length links) /\
  Scraper.depth (collect base links s) = Scraper.depth s /\
  Scraper.current_page (collect base links s) = Scraper.current_page s.
Proof.
  intros Hfit. unfold collect. cbn.
  rewrite firstn_all2 by exact Hfit. rewrite length_map. auto.
Qed.

(** [_request] on a page whose detail links all fit under the budget. *)
Lemma _request_below_budget base url location sw sw1 sw3 e1 e3 resp soup :
  BASE_URL_MAP "realtor.com"%string = Some base ->
  0 <= Scraper.current_counter (fst sw) ->
  Scraper._make_request format url (Some location) true sw
  = (Ret (Some resp), sw1, e1) ->
  let links := detail_links find_all_a_href (text resp) in
  links <> [] ->
  Scraper.current_counter (fst sw) + Z.of_nat (length links)
  < Scraper.depth (fst sw) ->
  Scraper._next_page format find_error_404 "realtor.com" location url
    (collect base links (fst sw1), snd sw1) = (Ret soup, sw3, e3) ->
  Scraper._request format find_all_a_href find_error_404 BASE_URL_MAP
    "realtor.com" url location sw
  = (if ok resp then (Ret Scraper.PyTrue, sw3, e1 ++ e3)
     else (Ret Scraper.PyNone, (reset_cursor (fst sw3), snd sw3), e1 ++ e3)) /\
  Scraper.urls (fst sw3)
  = Scraper.urls (fst sw) ++ map (String.append base) links /\
  Scraper.current_counter (fst sw3)
  = Scraper.current_counter (fst sw) + Z.of_nat (length links) /\
  Scraper.current_page (fst sw3) = Scraper.current_page (fst sw) + 1.
Proof.
  intros Hbase Hc Hreq links Hsome Hfit Hnext.
  pose proof Hreq as Hframe. apply _make_request_frame in Hframe.
  destruct Hframe as [Hu1 [_ [Hp1 [Hc1 Hd1]]]].
  pose proof Hnext as Hpage. apply _next_page_returns in Hpage.
  cbn [fst snd] in Hpage. destruct Hpage as [Hu3 [Hc3 [Hd3 Hp3]]].
  assert (Hbudget : (length links <= budget (fst sw1))%nat).
  { unfold budget. rewrite Hc1, Hd1. lia. }
  destruct (collect_all base links (fst sw1) Hbudget) as [Hcu [Hcc [Hcd Hcp]]].
  assert (Hcol :
    Scraper._collect_urls find_all_a_href BASE_URL_MAP (Some (text resp))
      "realtor.com" sw1
    = (Ret tt, (collect base links (fst sw1), snd sw1), [])).
  { unfold Scraper._collect_urls. destruct sw1 as [s1 w1].
    apply collect_links_spec. exact Hbase. }
  assert (Hlen : (0 < length links)%nat).
  { destruct links; [contradiction | cbn; lia]. }
  split.
  - erewrite _request_decides by eassumption.
    rewrite Hc3, Hd3, Hu3, Hcc, Hcd, Hcu, Hc1, Hd1, Hu1.
    replace (Scraper.current_counter (fst sw) + Z.of_nat (length links)
             <? Scraper.depth (fst sw)) with true
      by (symmetry; apply Z.ltb_lt; exact Hfit).
    replace (length (Scraper.urls (fst sw))
             <? length (Scraper.urls (fst sw) ++ map (String.append base) links))%nat
      with true
      by (symmetry; apply Nat.ltb_lt; rewrite length_app, length_map; lia).
    replace (length (Scraper.urls (fst sw) ++ map (String.append base) links)
             <=? length (Scraper.urls (fst sw)))%nat
      with false
      by (symmetry; apply Nat.leb_gt; rewrite length_app, length_map; lia).
    cbn [andb app]. rewrite andb_true_r.
    destruct (ok resp); reflexivity.
  - rewrite Hu3, Hc3, Hp3, Hcu, Hcc, Hcp, Hu1, Hc1, Hp1. auto.
Qed.


End DecisionFacts.

(** X12. On realtor.com, when the per-depth counter has already reached
    the depth budget (as with [Scraper(0)]), a fetched page adds nothing
    to the frontier, the next page is still fetched, and [_request]
    returns [False]: [navigate] stops at this location. *)
Theorem exhausted_budget_reports_failure
  (format : string -> string -> string)
  (find_all_a_href : string -> list string) (find_error_404 : string -> bool)
  (BASE_URL_MAP : string -> option string) (url location : string)
  (sw sw1 sw3 : Scraper.Scraper * World) (e1 e3 : list event)
  (resp : Response) (soup : option string) :
  Scraper.depth (fst sw) <= Scraper.current_counter (fst sw) ->
  Scraper._make_request format url (Some location) true sw
  = (Ret (Some resp), sw1, e1) ->
  Scraper._next_page format find_error_404 "realtor.com" location url sw1
  = (Ret soup, sw3, e3) ->
  Scraper._request format find_all_a_href find_error_404 BASE_URL_MAP
    "realtor.com" url location sw
  = (Ret Scraper.PyFalse, sw3, e1 ++ e3) /\
  Scraper.urls (fst sw3) = Scraper.urls (fst sw) /\
  Scraper.current_counter (fst sw3) = Scraper.current_counter (fst sw).
Proof.
  intros Hfull Hreq Hnext.
  pose proof Hreq as Hframe. apply _make_request_frame in Hframe.
  destruct Hframe as [Hu1 [_ [_ [Hc1 Hd1]]]].
  pose proof Hnext as Hpage. apply _next_page_returns in Hpage.
  destruct Hpage as [Hu3 [Hc3 [Hd3 _]]].
  assert (Hcol :
    Scraper._collect_urls find_all_a_href BASE_URL_MAP (Some (text resp))
      "realtor.com" sw1 = (Ret tt, sw1, [])).
  { unfold Scraper._collect_urls. destruct sw1 as [s1 w1].
    apply collect_links_no_budget. cbn [fst] in *. lia. }
  split; [| split; congruence].
  erewrite _request_decides by eassumption.
  rewrite Hc3, Hd3, Hu3, Hc1, Hd1.
  replace (Scraper.current_counter (fst sw) <? Scraper.depth (fst sw))
    with false by (symmetry; apply Z.ltb_ge; exact Hfull).
  rewrite Nat.leb_refl. reflexivity.
Qed.

Lemma exhausted_budget_reports_failure_witness :
  let sw0 := (Scraper.init 0 60,
              Scenario.crawl [Scenario.listing_page 4; Scenario.listing_page 0]) in
  let run :=
    Scraper._request Scenario.format Scenario.find_all_a_href
      Scenario.find_error_404 Scenario.BASE_URL_MAP
      "realtor.com" "http://site/" "A" sw0 in
  fst (fst run) = Ret Scraper.PyFalse /\
  Scraper.urls (fst (snd (fst run))) = [].
Proof.
  cbv zeta.
  set (sw0 := (Scraper.init 0 60,
              Scenario.crawl [Scenario.listing_page 4; Scenario.listing_page 0])).
  set (req := Scraper._make_request Scenario.format "http://site/"
                (Some "A"%string) true sw0).
  set (nxt := Scraper._next_page Scenario.format Scenario.find_error_404
                "realtor.com" "A" "http://site/" (snd (fst req))).
  assert (H1 : Scraper.depth (fst sw0) <= Scraper.current_counter (fst sw0))
    by (cbn; lia).
  assert (H2 : req = (Ret (Some (Scenario.listing_page 4)), snd (fst req), snd req))
    by (vm_compute; reflexivity).
  assert (H3 : nxt = (Ret (Some "/about"%string), snd (fst nxt), snd nxt))
    by (vm_compute; reflexivity).
  destruct (exhausted_budget_reports_failure Scenario.format
              Scenario.find_all_a_href Scenario.find_error_404
              Scenario.BASE_URL_MAP "http://site/" "A"
              sw0 (snd (fst req)) (snd (fst nxt)) (snd req) (snd nxt)
              (Scenario.listing_page 4) (Some "/about"%string) H1 H2 H3)
    as [Hrun [Hurls _]].
  rewrite Hrun. cbn [fst snd]. split; [reflexivity | exact Hurls].
Defined.

(** X13. On realtor.com, a page answered with an ok status whose detail
    links all fit under the depth budget adds all of them to the
    frontier, in order; [_request] returns [True] after fetching the next
    page once, leaving the counter raised by the number of links and the
    page cursor advanced by one. *)
Theorem page_below_budget_carries_counter
  (format : string -> string -> string)
  (find_all_a_href : string -> list string) (find_error_404 : string -> bool)
  (BASE_URL_MAP : string -> option string) (base url location : string)
  (sw sw1 sw3 : Scraper.Scraper * World) (e1 e3 : list event)
  (resp : Response) (soup : option string) :
  BASE_URL_MAP "realtor.com"%string = Some base ->
  0 <= Scraper.current_counter (fst sw) ->
  Scraper._make_request format url (Some location) true sw
  = (Ret (Some resp), sw1, e1) ->
  ok resp = true ->
  detail_links find_all_a_href (text resp) <> [] ->
  Scraper.current_counter (fst sw)
  + Z.of_nat (length (detail_links find_all_a_href (text resp)))
  < Scraper.depth (fst sw) ->
  Scraper._next_page format find_error_404 "realtor.com" location url
    (collect base (detail_links find_all_a_href (text resp)) (fst sw1), snd sw1)
  = (Ret soup, sw3, e3) ->
  Scraper._request format find_all_a_href find_error_404 BASE_URL_MAP
    "realtor.com" url location sw
  = (Ret Scraper.PyTrue, sw3, e1 ++ e3) /\
  Scraper.urls (fst sw3)
  = Scraper.urls (fst sw)
    ++ map (String.append base) (detail_links find_all_a_href (text resp)) /\
  Scraper.current_counter (fst sw3)
  = Scraper.current_counter (fst sw)
    + Z.of_nat (length (detail_links find_all_a_href (text resp))) /\
  Scraper.current_page (fst sw3) = Scraper.current_page (fst sw) + 1.
Proof.
  intros Hbase Hc Hreq Hok Hsome Hfit Hnext.
  destruct (_request_below_budget format find_all_a_href find_error_404
              BASE_URL_MAP base url location sw sw1 sw3 e1 e3 resp soup
              Hbase Hc Hreq Hsome Hfit Hnext) as [Hrun Hrest].
  rewrite Hok in Hrun. split; assumption.
Qed.

(** X14. The same page answered with a status that is not ok still has
    its links collected, but [_request] takes the depth-limit exit: it
    returns [None], the per-depth counter reset to 0 and the page cursor
    to 2. *)
Theorem failed_status_resets_cursor
  (format : string -> string -> string)
  (find_all_a_href : string -> list string) (find_error_404 : string -> bool)
  (BASE_URL_MAP : string -> option string) (base url location : string)
  (sw sw1 sw3 : Scraper.Scraper * World) (e1 e3 : list event)
  (resp : Response) (soup : option string) :
  BASE_URL_MAP "realtor.com"%string = Some base ->
  0 <= Scraper.current_counter (fst sw) ->
  Scraper._make_request format url (Some location) true sw
  = (Ret (Some resp), sw1, e1) ->
  ok resp = false ->
  detail_links find_all_a_href (text resp) <> [] ->
  Scraper.current_counter (fst sw)
  + Z.of_nat (length (detail_links find_all_a_href (text resp)))
  < Scraper.depth (fst sw) ->
  Scraper._next_page format find_error_404 "realtor.com" location url
    (collect base (detail_links find_all_a_href (text resp)) (fst sw1), snd sw1)
  = (Ret soup, sw3, e3) ->
  Scraper._request format find_all_a_href find_error_404 BASE_URL_MAP
    "realtor.com" url location sw
  = (Ret Scraper.PyNone, (reset_cursor (fst sw3), snd sw3), e1 ++ e3) /\
  Scraper.urls (reset_cursor (fst sw3))
  = Scraper.urls (fst sw)
    ++ map (String.append base) (detail_links find_all_a_href (text resp)) /\
  Scraper.current_counter (reset_cursor (fst sw3)) = 0 /\
  Scraper.current_page (reset_cursor (fst sw3)) = 2.
Proof.
  intros Hbase Hc Hreq Hok Hsome Hfit Hnext.
  destruct (_request_below_budget format find_all_a_href find_error_404
              BASE_URL_MAP base url location sw sw1 sw3 e1 e3 resp soup
              Hbase Hc Hreq Hsome Hfit Hnext) as [Hrun [Hurls _]].
  rewrite Hok in Hrun. repeat split; assumption.
Qed.

Lemma page_below_budget_carries_counter_witness :
  let sw0 := (Scraper.init 5 60,
              Scenario.crawl [Scenario.listing_page 3; Scenario.listing_page 0]) in
  let run :=
    Scraper._request Scenario.format Scenario.find_all_a_href
      Scenario.find_error_404 Scenario.BASE_URL_MAP
      "realtor.com" "http://site/" "A" sw0 in
  fst (fst run) = Ret Scraper.PyTrue /\
  Scraper.current_counter (fst (snd (fst run))) = 3 /\
  Scraper.current_page (fst (snd (fst run))) = 2.
Proof.
  cbv zeta.
  set (sw0 := (Scraper.init 5 60,
              Scenario.crawl [Scenario.listing_page 3; Scenario.listing_page 0])).
  set (req := Scraper._make_request Scenario.format "http://site/"
                (Some "A"%string) true sw0).
  set (links := detail_links Scenario.find_all_a_href
                  (text (Scenario.listing_page 3))).
  set (nxt := Scraper._next_page Scenario.format Scenario.find_error_404
                "realtor.com" "A" "http://site/"
                (collect "https://www.realtor.com" links (fst (snd (fst req))),
                 snd (snd (fst req)))).
  assert (H1 : Scenario.BASE_URL_MAP "realtor.com"
               = Some "https://www.realtor.com"%string) by reflexivity.
  assert (H2 : 0 <= Scraper.current_counter (fst sw0)) by (cbn; lia).
  assert (H3 : req = (Ret (Some (Scenario.listing_page 3)), snd (fst req), snd req))
    by (vm_compute; reflexivity).
  assert (H4 : ok (Scenario.listing_page 3) = true) by reflexivity.
  assert (H5 : links <> []) by (vm_compute; discriminate).
  assert (H6 : Scraper.current_counter (fst sw0) + Z.of_nat (length links)
               < Scraper.depth (fst sw0)) by (vm_compute; reflexivity).
  assert (H7 : nxt = (Ret (Some "/about"%string), snd (fst nxt), snd nxt))
    by (vm_compute; reflexivity).
  destruct (page_below_budget_carries_counter Scenario.format
              Scenario.find_all_a_href Scenario.find_error_404
              Scenario.BASE_URL_MAP "https://www.realtor.com" "http://site/" "A"
              sw0 (snd (fst req)) (snd (fst nxt)) (snd req) (snd nxt)
              (Scenario.listing_page 3) (Some "/about"%string)
              H1 H2 H3 H4 H5 H6 H7)
    as [Hrun [_ [Hcount Hpage]]].
  rewrite Hrun. cbn [fst snd]. split; [reflexivity|].
  split; [rewrite Hcount | rewrite Hpage]; vm_compute; reflexivity.
Defined.

Lemma failed_status_resets_cursor_witness :
  let page := mkResponse false (text (Scenario.listing_page 3)) in
  let sw0 := (Scraper.init 5 60,
              Scenario.crawl [page; Scenario.listing_page 0]) in
  let run :=
    Scraper._request Scenario.format Scenario.find_all_a_href
      Scenario.find_error_404 Scenario.BASE_URL_MAP
      "realtor.com" "http://site/" "A" sw0 in
  fst (fst run) = Ret Scraper.PyNone /\
  Scraper.current_counter (fst (snd (fst run))) = 0 /\
  Scraper.current_page (fst (snd (fst run))) = 2.
Proof.
  cbv zeta.
  set (page := mkResponse false (text (Scenario.listing_page 3))).
  set (sw0 := (Scraper.init 5 60,
              Scenario.crawl [page; Scenario.listing_page 0])).
  set (req := Scraper._make_request Scenario.format "http://site/"
                (Some "A"%string) true sw0).
  set (links := detail_links Scenario.find_all_a_href (text page)).
  set (nxt := Scraper._next_page Scenario.format Scenario.find_error_404
                "realtor.com" "A" "http://site/"
                (collect "https://www.realtor.com" links (fst (snd (fst req))),
                 snd (snd (fst req)))).
  assert (H1 : Scenario.BASE_URL_MAP "realtor.com"
               = Some "https://www.realtor.com"%string) by reflexivity.
  assert (H2 : 0 <= Scraper.current_counter (fst sw0)) by (cbn; lia).
  assert (H3 : req = (Ret (Some page), snd (fst req), snd req))
    by (vm_compute; reflexivity).
  assert (H4 : ok page = false) by reflexivity.
  assert (H5 : links <> []) by (vm_compute; discriminate).
  assert (H6 : Scraper.current_counter (fst sw0) + Z.of_nat (length links)
               < Scraper.depth (fst sw0)) by (vm_compute; reflexivity).
  assert (H7 : nxt = (Ret (Some "/about"%string), snd (fst nxt), snd nxt))
    by (vm_compute; reflexivity).
  destruct (failed_status_resets_cursor Scenario.format
              Scenario.find_all_a_href Scenario.find_error_404
              Scenario.BASE_URL_MAP "https://www.realtor.com" "http://site/" "A"
              sw0 (snd (fst req)) (snd (fst nxt)) (snd req) (snd nxt)
              page (Some "/about"%string)
              H1 H2 H3 H4 H5 H6 H7)
    as [Hrun [_ [Hcount Hpage]]].
  rewrite Hrun. cbn [fst snd]. auto.
Defined.

(** X15. For a site other than realtor.com, [_request] makes the first
    request and returns [True] at once: the page is not read, the
    frontier is unchanged, and [_next_page] does nothing for such a
    site. *)
Theorem other_site_collects_nothing
  (format : string -> string -> string)
  (find_all_a_href : string -> list string) (find_error_404 : string -> bool)
  (BASE_URL_MAP : string -> option string) (site url location : string)
  (sw sw1 : Scraper.Scraper * World) (e1 : list event) (resp : Response) :
  String.eqb site "realtor.com" = false ->
  Scraper._make_request format url (Some location) true sw
  = (Ret (Some resp), sw1, e1) ->
  Scraper._request format find_all_a_href find_error_404 BASE_URL_MAP
    site url location sw
  = (Ret Scraper.PyTrue, sw1, e1) /\
  Scraper.urls (fst sw1) = Scraper.urls (fst sw) /\
  Scraper._next_page format find_error_404 site location url sw1
  = (Ret None, sw1, []).
Proof.
  intros Hsite Hreq.
  pose proof Hreq as Hframe. apply _make_request_frame in Hframe.
  destruct Hframe as [Hu1 _].
  unfold Scraper._request, Scraper._next_page. rewrite Hsite.
  unfold bind at 1. rewrite Hreq. cbn. rewrite app_nil_r. auto.
Qed.

Lemma other_site_collects_nothing_witness :
  let sw0 := (Scraper.init 5 60, Scenario.crawl [Scenario.listing_page 3]) in
  let run :=
    Scraper._request Scenario.format Scenario.find_all_a_href
      Scenario.find_error_404 Scenario.BASE_URL_MAP
      "loopnet.com" "http://site/" "A" sw0 in
  fst (fst run) = Ret Scraper.PyTrue /\
  Scraper.urls (fst (snd (fst run))) = [].
Proof.
  cbv zeta.
  set (sw0 := (Scraper.init 5 60, Scenario.crawl [Scenario.listing_page 3])).
  set (req := Scraper._make_request Scenario.format "http://site/"
                (Some "A"%string) true sw0).
  assert (H1 : String.eqb "loopnet.com" "realtor.com" = false) by reflexivity.
  assert (H2 : req = (Ret (Some (Scenario.listing_page 3)), snd (fst req), snd req))
    by (vm_compute; reflexivity).
  destruct (other_site_collects_nothing Scenario.format
              Scenario.find_all_a_href Scenario.find_error_404
              Scenario.BASE_URL_MAP "loopnet.com" "http://site/" "A"
              sw0 (snd (fst req)) (snd req) (Scenario.listing_page 3) H1 H2)
    as [Hrun [Hurls _]].
  rewrite Hrun. cbn [fst snd]. split; [reflexivity | exact Hurls].
Defined.

(** X16. On realtor.com with no entry for the site in [BASE_URL_MAP], the
    first detail link met with budget left raises [KeyError] out of
    [_request], with nothing appended and no further request. *)
Theorem missing_base_url_raises_KeyError
  (format : string -> string -> string)
  (find_all_a_href : string -> list string) (find_error_404 : string -> bool)
  (BASE_URL_MAP : string -> option string) (url location : string)
  (sw sw1 : Scraper.Scraper * World) (e1 : list event) (resp : Response) :
  BASE_URL_MAP "realtor.com"%string = None ->
  Scraper.current_counter (fst sw) < Scraper.depth (fst sw) ->
  Scraper._make_request format url (Some location) true sw
  = (Ret (Some resp), sw1, e1) ->
  detail_links find_all_a_href (text resp) <> [] ->
  Scraper._request format find_all_a_href find_error_404 BASE_URL_MAP
    "realtor.com" url location sw
  = (Raise KeyError, sw1, e1).
Proof.
  intros Hbase Hroom Hreq Hsome.
  pose proof Hreq as Hframe. apply _make_request_frame in Hframe.
  destruct Hframe as [_ [_ [_ [Hc1 Hd1]]]].
  unfold Scraper._request. unfold bind at 1. rewrite Hreq.
  unfold bind at 1, Scraper.text_of at 1, ret at 1.
  unfold bind at 1, gets at 1. cbn [fst snd String.eqb Ascii.eqb Bool.eqb].
  unfold bind at 1, Scraper._collect_urls. destruct sw1 as [s1 w1].
  rewrite collect_links_KeyError; [| assumption | cbn [fst] in *; lia | exact Hsome].
  cbn. rewrite app_nil_r. reflexivity.
Qed.

Lemma missing_base_url_raises_KeyError_witness :
  let sw0 := (Scraper.init 5 60, Scenario.crawl [Scenario.listing_page 3]) in
  fst (fst (Scraper._request Scenario.format Scenario.find_all_a_href
              Scenario.find_error_404 (fun _ => None)
              "realtor.com" "http://site/" "A" sw0))
  = Raise KeyError.
Proof.
  cbv zeta.
  set (sw0 := (Scraper.init 5 60, Scenario.crawl [Scenario.listing_page 3])).
  set (req := Scraper._make_request Scenario.format "http://site/"
                (Some "A"%string) true sw0).
  assert (H2 : Scraper.current_counter (fst sw0) < Scraper.depth (fst sw0))
    by (cbn; lia).
  assert (H3 : req = (Ret (Some (Scenario.listing_page 3)), snd (fst req), snd req))
    by (vm_compute; reflexivity).
  assert (H4 : detail_links Scenario.find_all_a_href
                 (text (Scenario.listing_page 3)) <> [])
    by (vm_compute; discriminate).
  rewrite (missing_base_url_raises_KeyError Scenario.format
             Scenario.find_all_a_href Scenario.find_error_404 (fun _ => None)
             "http://site/" "A" sw0 (snd (fst req)) (snd req)
             (Scenario.listing_page 3) eq_refl H2 H3 H4).
  reflexivity.
Defined.



(** ** City names *)

Section StringFacts.

Import StringUtils.

Lemma append_nil_r s : (s ++ "")%string = s.
Proof. induction s; cbn; [reflexivity | f_equal; assumption]. Qed.

Lemma append_assoc (a b c : string) :
  ((a ++ b) ++ c)%string = (a ++ b ++ c)%string.
Proof. induction a; cbn; [reflexivity | f_equal; assumption]. Qed.

Lemma split_nonempty sep s : split sep s <> [].
Proof.
  destruct s as [|c rest]; cbn; [discriminate|].
  destruct (Ascii.eqb c sep); [discriminate|].
  destruct (split sep rest); discriminate.
Qed.

Lemma length_split sep s : length (split sep s) = S (count_char sep s).
Proof.
  induction s as [|c rest IH]; [reflexivity|].
  cbn [split count_char]. destruct (Ascii.eqb c sep).
  - cbn. rewrite IH. reflexivity.
  - destruct (split sep rest) as [|h t] eqn:E.
    + exfalso. eapply split_nonempty. exact E.
    + cbn in *. exact IH.
Qed.

Lemma split_app sep a b :
  all_chars (fun c => negb (Ascii.eqb c sep)) a = true ->
  split sep (a ++ String sep b) = a :: split sep b.
Proof.
  induction a as [|c a IH]; cbn [append all_chars split]; intros Ha.
  - rewrite Ascii.eqb_refl. reflexivity.
  - apply andb_prop in Ha. destruct Ha as [Hc Ha].
    apply negb_true_iff in Hc. rewrite Hc, (IH Ha). reflexivity.
Qed.

Lemma split_none sep a :
  all_chars (fun c => negb (Ascii.eqb c sep)) a = true ->
  split sep a = [a].
Proof.
  induction a as [|c a IH]; cbn [all_chars split]; intros Ha; [reflexivity|].
  apply andb_prop in Ha. destruct Ha as [Hc Ha].
  apply negb_true_iff in Hc. rewrite Hc, (IH Ha). reflexivity.
Qed.

Lemma split_whitespace_blank pad s :
  blank pad = true -> split_whitespace (pad ++ s) = split_whitespace s.
Proof.
  unfold blank. induction pad as [|c pad IH]; cbn [append all_chars];
    intros Hp; [reflexivity|].
  apply andb_prop in Hp. destruct Hp as [Hc Hp].
  cbn [split_whitespace]. rewrite Hc. apply IH. exact Hp.
Qed.

Lemma split_whitespace_step c rest :
  isspace c = false ->
  split_whitespace (String c rest)
  = match rest with
    | EmptyString => [String c EmptyString]
    | String c' _ =>
        if isspace c' then String c EmptyString :: split_whitespace rest
        else match split_whitespace rest with
             | head :: tail => String c head :: tail
             | [] => [String c EmptyString]
             end
    end.
Proof. intros H. cbn [split_whitespace]. rewrite H. reflexivity. Qed.

Lemma word_cons c w :
  word (String c w) ->
  isspace c = false /\ (w = EmptyString \/ word w).
Proof.
  intros [_ Hw]. cbn [all_chars] in Hw. apply andb_prop in Hw.
  destruct Hw as [Hc Hw]. apply negb_true_iff in Hc. split; [exact Hc|].
  destruct w; [left; reflexivity | right; split; [discriminate | exact Hw]].
Qed.

Lemma split_whitespace_word w :
  word w -> split_whitespace w = [w].
Proof.
  induction w as [|c w IH]; intros Hw; [destruct Hw; contradiction|].
  destruct (word_cons _ _ Hw) as [Hc [-> | Hw']].
  - rewrite split_whitespace_step by exact Hc. reflexivity.
  - rewrite split_whitespace_step by exact Hc.
    destruct w as [|c' w']; [reflexivity|].
    destruct (word_cons _ _ Hw') as [Hc' _]. rewrite Hc', (IH Hw').
    reflexivity.
Qed.

Lemma split_whitespace_word_then_space w c s :
  word w -> isspace c = true ->
  split_whitespace (w ++ String c s) = w :: split_whitespace (String c s).
Proof.
  intros Hw Hsp. induction w as [|d w IH]; [destruct Hw; contradiction|].
  destruct (word_cons _ _ Hw) as [Hd [-> | Hw']].
  - cbn [append]. rewrite split_whitespace_step by exact Hd.
    rewrite Hsp. reflexivity.
  - cbn [append]. rewrite split_whitespace_step by exact Hd.
    destruct w as [|d' w']; [destruct Hw'; contradiction|].
    destruct (word_cons _ _ Hw') as [Hd' _].
    cbn [append]. rewrite Hd'.
    change (String d' (w' ++ String c s))%string
      with (String d' w' ++ String c s)%string.
    rewrite (IH Hw'). reflexivity.
Qed.

(** [split()] returns the words of a layout. *)
Lemma split_whitespace_layout pws : forall tail,
  well_spaced pws tail ->
  split_whitespace (layout pws tail) = map snd pws.
Proof.
  induction pws as [|[pad w] rest IH]; intros tail [Hall [Hgap Htail]].
  - cbn. rewrite <- (append_nil_r tail).
    rewrite (split_whitespace_blank _ _ Htail). reflexivity.
  - inversion Hall as [|x l [Hpad Hword] Hrest]; subst. cbn [fst snd] in *.
    cbn [layout map snd]. rewrite (split_whitespace_blank _ _ Hpad).
    assert (Hws : well_spaced rest tail).
    { repeat split; try assumption.
      cbn [tl] in Hgap. destruct rest; [constructor|].
      inversion Hgap; subst. cbn [tl]. assumption. }
    specialize (IH tail Hws).
    destruct (layout rest tail) as [|c s] eqn:El.
    + rewrite append_nil_r, split_whitespace_word by exact Hword.
      cbn in IH. rewrite <- IH. reflexivity.
    + assert (Hc : isspace c = true).
      { destruct rest as [|[pad' w'] rest'].
        - cbn in El. subst tail. unfold blank in Htail. cbn in Htail.
          apply andb_prop in Htail. tauto.
        - cbn [tl] in Hgap. inversion Hgap as [|x l Hne _]; subst.
          inversion Hrest as [|x l [Hpad' _] _]; subst. cbn [fst snd] in *.
          destruct pad' as [|c0 pad0]; [contradiction|].
          cbn in El. inversion El; subst. unfold blank in Hpad'. cbn in Hpad'.
          apply andb_prop in Hpad'. tauto. }
      rewrite split_whitespace_word_then_space by assumption.
      rewrite IH. reflexivity.
Qed.

Lemma lstrip_pad pad core :
  blank pad = true -> starts_clean core = true ->
  lstrip (pad ++ core) = core.
Proof.
  unfold blank. induction pad as [|c pad IH]; cbn [append all_chars];
    intros Hp Hs.
  - destruct core as [|c core]; [reflexivity|]. cbn in *.
    apply negb_true_iff in Hs. rewrite Hs. reflexivity.
  - apply andb_prop in Hp. destruct Hp as [Hc Hp].
    cbn [lstrip]. rewrite Hc. apply IH; assumption.
Qed.

Lemma rstrip_blank pad : blank pad = true -> rstrip pad = EmptyString.
Proof.
  unfold blank. induction pad as [|c pad IH]; cbn [all_chars rstrip];
    intros Hp; [reflexivity|].
  apply andb_prop in Hp. destruct Hp as [Hc Hp].
  rewrite (IH Hp), Hc. reflexivity.
Qed.

Lemma rstrip_pad core pad :
  blank pad = true -> ends_clean core = true ->
  rstrip (core ++ pad) = core.
Proof.
  intros Hp. induction core as [|c core IH]; intros He.
  - cbn. apply rstrip_blank. exact Hp.
  - cbn [append rstrip]. destruct core as [|c' core'].
    + cbn [append]. rewrite (rstrip_blank _ Hp).
      cbn in He. apply negb_true_iff in He. rewrite He. reflexivity.
    + rewrite IH by exact He. reflexivity.
Qed.

Lemma strip_padded pad1 core pad2 :
  blank pad1 = true -> blank pad2 = true ->
  starts_clean core = true -> ends_clean core = true ->
  strip (pad1 ++ core ++ pad2) = core.
Proof.
  intros H1 H2 Hs He. unfold strip.
  destruct core as [|c core].
  - cbn [append]. 
    replace (lstrip (pad1 ++ pad2)) with (lstrip (pad1 ++ pad2 ++ ""))
      by (rewrite append_nil_r; reflexivity).
    rewrite <- append_assoc.
    rewrite lstrip_pad; [reflexivity | | reflexivity].
    unfold blank in *. clear - H1 H2. induction pad1; cbn in *; [exact H2|].
    apply andb_prop in H1. destruct H1 as [Ha H1].
    rewrite Ha. cbn. apply IHpad1. exact H1.
  - rewrite lstrip_pad; [| exact H1 | exact Hs].
    apply rstrip_pad; assumption.
Qed.

End StringFacts.

Section CityFacts.

Import StringUtils.

Lemma split_city_state city state :
  comma_free city = true -> comma_free state = true ->
  unpack2 (split "," (city ++ "," ++ state)) = Ret (city, state).
Proof.
  intros Hc Hs. cbn [append].
  rewrite split_app by exact Hc. rewrite split_none by exact Hs. reflexivity.
Qed.

Lemma unpack2_ValueError city :
  count_char "," city <> 1%nat ->
  unpack2 (split "," city) = Raise ValueError.
Proof.
  intros Hn. pose proof (length_split "," city) as Hl.
  destruct (split "," city) as [|a [|b [|c l]]]; cbn in *;
    try reflexivity. lia.
Qed.

Lemma realtor_loop_app good : forall fs rest acc,
  Forall2 (fun city f => realtor_city city = Ret f) good fs ->
  realtor_loop (good ++ rest) acc = realtor_loop rest (acc ++ fs).
Proof.
  induction good as [|city good IH]; intros fs rest acc H;
    inversion H; subst.
  - rewrite app_nil_r. reflexivity.
  - cbn [app realtor_loop]. rewrite H2. rewrite (IH _ _ _ H4).
    rewrite <- app_assoc. reflexivity.
Qed.

Lemma split_whitespace_all_blank c :
  blank c = true -> split_whitespace c = [].
Proof.
  intros H. rewrite <- (append_nil_r c).
  rewrite split_whitespace_blank by exact H. reflexivity.
Qed.

Lemma city_agree city :
  match realtor_city city, loopnet_city city with
  | Ret x, Ret y => same_city x y
  | Raise e, Raise e' => e = e'
  | _, _ => False
  end.
Proof.
  unfold realtor_city, loopnet_city.
  destruct (unpack2 (split "," city)) as [[c s]|e|] eqn:Eu; [| reflexivity |].
  2: { unfold unpack2 in Eu.
       destruct (split "," city) as [|x [|y [|z t]]]; discriminate. }
  destruct (1 <? length (split_whitespace c))%nat.
  - eexists. eexists. split; reflexivity.
  - destruct (split_whitespace c); [reflexivity|].
    eexists. eexists. split; reflexivity.
Qed.

Lemma loops_agree city_list : forall acc_r acc_l,
  Forall2 same_city acc_r acc_l ->
  match realtor_loop city_list acc_r, loopnet_loop city_list acc_l with
  | Ret a, Ret b => Forall2 same_city a b
  | Raise e, Raise e' => e = e'
  | _, _ => False
  end.
Proof.
  induction city_list as [|city rest IH]; intros acc_r acc_l Hacc;
    [exact Hacc|].
  cbn [realtor_loop loopnet_loop].
  pose proof (city_agree city) as Hc.
  destruct (realtor_city city) as [x|e|], (loopnet_city city) as [y|e'|];
    try contradiction.
  - apply IH. apply Forall2_app; [exact Hacc|]. constructor; [exact Hc | constructor].
  - subst e'. destruct (is_ValueError e); [exact Hacc | reflexivity].
Qed.

End CityFacts.

(** X18. An entry [city, state] (one comma; the city one or more words
    separated by white space, the state possibly with white space around
    it) is formatted as the words joined by [-], then [_] and the state for
    realtor.com, [-] and the state for loopnet. *)
Theorem city_state_entry_formats (padded_words : list (string * string))
  (tail pad1 state pad2 : string) :
  padded_words <> [] ->
  well_spaced padded_words tail ->
  comma_free (layout padded_words tail) = true ->
  blank pad1 = true -> blank pad2 = true ->
  starts_clean state = true -> ends_clean state = true ->
  comma_free (pad1 ++ state ++ pad2) = true ->
  let entry :=
    (layout padded_words tail ++ "," ++ pad1 ++ state ++ pad2)%string in
  let city := String.concat "-" (map snd padded_words) in
  StringUtils.realtor_city entry = Ret (city ++ "_" ++ state)%string /\
  StringUtils.loopnet_city entry = Ret (city ++ "-" ++ state)%string.
Proof.
  intros Hne Hws Hc H1 H2 Hs He Hcs entry city.
  unfold StringUtils.realtor_city, StringUtils.loopnet_city, entry.
  rewrite (split_city_state _ _ Hc Hcs).
  rewrite (split_whitespace_layout _ _ Hws).
  rewrite (strip_padded _ _ _ H1 H2 Hs He).
  destruct padded_words as [|[p w] [|pw rest]]; [contradiction | |].
  - cbn. split; reflexivity.
  - cbn [map length]. cbn [Nat.ltb Nat.leb]. split; reflexivity.
Qed.

Lemma city_state_entry_formats_witness :
  StringUtils.realtor_city "New  York City , NY " = Ret "New-York-City_NY"%string /\
  StringUtils.loopnet_city "New  York City , NY " = Ret "New-York-City-NY"%string.
Proof.
  apply (city_state_entry_formats
           [(""%string, "New"%string); ("  "%string, "York"%string);
            (" "%string, "City"%string)] " " " " "NY" " ");
    try reflexivity; try discriminate.
  repeat split; repeat constructor; cbn; try discriminate; reflexivity.
Defined.

(** X19. An entry without exactly one comma stops the formatting without
    an error: [_realtor_city_format], and [format_cities] for
    realtor.com, return the entries formatted before it, and the entries
    after it are dropped. *)
Theorem malformed_entry_truncates (good : list string) (formatted : list string)
  (bad : string) (rest : list string) :
  Forall2 (fun city f => StringUtils.realtor_city city = Ret f) good formatted ->
  count_char "," bad <> 1%nat ->
  StringUtils._realtor_city_format (good ++ bad :: rest) = Ret formatted /\
  StringUtils.format_cities "realtor.com" (good ++ bad :: rest)
  = Ret (Some formatted).
Proof.
  intros Hgood Hbad.
  assert (H : StringUtils._realtor_city_format (good ++ bad :: rest)
              = Ret formatted).
  { unfold StringUtils._realtor_city_format.
    rewrite (realtor_loop_app _ _ _ _ Hgood). cbn [app StringUtils.realtor_loop].
    unfold StringUtils.realtor_city. rewrite (unpack2_ValueError _ Hbad).
    reflexivity. }
  split; [exact H|]. unfold StringUtils.format_cities. cbn. rewrite H.
  reflexivity.
Qed.

Lemma malformed_entry_truncates_witness :
  StringUtils.format_cities "realtor.com"
    ["Orlando, FL"; "Nashville TN"; "Austin, TX"]%string
  = Ret (Some ["Orlando_FL"%string]).
Proof.
  apply (malformed_entry_truncates ["Orlando, FL"%string] ["Orlando_FL"%string]
           "Nashville TN" ["Austin, TX"%string]).
  - repeat constructor.
  - cbn. discriminate.
Defined.

(** X20. An entry whose city part is empty or white space only raises
    [IndexError] out of [_realtor_city_format]: only [ValueError] is
    caught. *)
Theorem blank_city_raises_IndexError (good : list string)
  (formatted : list string) (city state : string) (rest : list string) :
  Forall2 (fun c f => StringUtils.realtor_city c = Ret f) good formatted ->
  blank city = true ->
  comma_free city = true -> comma_free state = true ->
  StringUtils._realtor_city_format (good ++ (city ++ "," ++ state)%string :: rest)
  = Raise IndexError.
Proof.
  intros Hgood Hblank Hc Hs. unfold StringUtils._realtor_city_format.
  rewrite (realtor_loop_app _ _ _ _ Hgood). cbn [app StringUtils.realtor_loop].
  unfold StringUtils.realtor_city. rewrite (split_city_state _ _ Hc Hs).
  rewrite (split_whitespace_all_blank _ Hblank). reflexivity.
Qed.

Lemma blank_city_raises_IndexError_witness :
  StringUtils._realtor_city_format
    ["Orlando, FL"; " , TN"; "Austin, TX"]%string
  = Raise IndexError.
Proof.
  apply (blank_city_raises_IndexError ["Orlando, FL"%string]
           ["Orlando_FL"%string] " " " TN" ["Austin, TX"%string]);
    try reflexivity.
  repeat constructor.
Defined.

(** X21. On every list of entries the two formatters end the same way:
    they raise the same exception, or they return lists of equal length
    whose entries differ only in the separator before the state. *)
Theorem formatters_agree (city_list : list string) :
  match StringUtils._realtor_city_format city_list,
        StringUtils._loopnet_city_format city_list with
  | Ret realtor, Ret loopnet => Forall2 same_city realtor loopnet
  | Raise e, Raise e' => e = e'
  | _, _ => False
  end.
Proof.
  unfold StringUtils._realtor_city_format, StringUtils._loopnet_city_format.
  exact (loops_agree city_list [] [] (Forall2_nil _)).
Qed.

(** ** Flattening nested dictionaries *)

Section FlattenEnds.

Import Flatten.

Lemma for_elems_ends elems :
  Forall (fun r => forall d p sep, ends_as r (flatten_dictionary r d p sep))
         elems ->
  forall k i d,
    loop_ends_as (forallb (fun r => is_dict r && lists_hold_dicts r) elems)
                 (for_elems flatten_dictionary k elems i d).
Proof.
  induction 1 as [|r more Hr _ IH]; intros k i d; [reflexivity|].
  cbn [for_elems forallb].
  specialize (Hr d (Some (if (i <=? 1)%nat then k
                          else (k ++ "_" ++ Scraper.str (Z.of_nat i))%string))
                 "_"%string).
  destruct (flatten_dictionary r d _ "_") as [d'|e|]; cbn in Hr |- *.
  - rewrite Hr. apply IH.
  - destruct Hr as [-> Hr]. rewrite Hr. split; reflexivity.
  - contradiction.
Qed.

Lemma for_items_ends items :
  Forall (fun kv => ends_well (snd kv)) items ->
  forall p sep d,
    loop_ends_as (forallb (fun kv => lists_hold_dicts (snd kv)) items)
                 (for_items flatten_dictionary p sep items d).
Proof.
  induction 1 as [|[k v] rest Hv _ IH]; intros p sep d; [reflexivity|].
  cbn [for_items forallb snd]. destruct Hv as [Hflat Hlist]. cbn [snd] in *.
  destruct v as [repr|its|elems].
  - cbn. apply IH.
  - specialize (Hflat d (Some (prefixed p sep k)) "_"%string).
    destruct (flatten_dictionary (Dict its) d _ "_") as [d'|e|];
      cbn [ends_as is_dict andb] in Hflat.
    + rewrite Hflat. apply IH.
    + destruct Hflat as [-> Hflat]. rewrite Hflat. split; reflexivity.
    + contradiction.
  - specialize (Hlist (prefixed p sep (prefixed p sep k)) 0%nat d).
    cbn [lists_hold_dicts].
    destruct (for_elems flatten_dictionary _ elems 0 d) as [d'|e|];
      cbn [loop_ends_as] in Hlist.
    + rewrite Hlist. apply IH.
    + destruct Hlist as [-> Hlist]. rewrite Hlist. split; reflexivity.
    + contradiction.
Qed.

Lemma flatten_ends_well v : ends_well v.
Proof.
  induction v as [repr|items IH|elems IH] using value_nested_ind.
  - split; [| exact I]. intros d p sep. cbn. auto.
  - split; [| exact I]. intros d p sep. cbn [flatten_dictionary].
    pose proof (for_items_ends items IH p sep d) as H.
    destruct (for_items flatten_dictionary p sep items d); exact H.
  - split.
    + intros d p sep. cbn. auto.
    + apply for_elems_ends. eapply Forall_impl; [| exact IH].
      intros r [Hr _]. exact Hr.
Qed.

End FlattenEnds.

(** X22. [flatten_dictionary] returns exactly when its argument is a dict
    and every element of every list reached through dicts and lists is a
    dict holding only such lists; otherwise it raises [AttributeError]
    (a list of strings or numbers is enough). *)
Theorem flatten_raises_on_non_dict_element (in_dict : Flatten.value)
  (dict_out : Flatten.dict) (parent_key : option string) (separator : string) :
  match Flatten.flatten_dictionary in_dict dict_out parent_key separator with
  | Ret _ => is_dict in_dict && lists_hold_dicts in_dict = true
  | Raise e =>
      e = AttributeError /\ is_dict in_dict && lists_hold_dicts in_dict = false
  | Unfinished => False
  end.
Proof. exact (proj1 (flatten_ends_well in_dict) dict_out parent_key separator). Qed.

Section FlattenKeys.

Import Flatten.

Lemma getitem_setitem_same d k v : getitem (setitem d k v) k = Some v.
Proof.
  induction d as [|[k' v'] d IH]; cbn.
  - rewrite String.eqb_refl. reflexivity.
  - destruct (String.eqb k' k) eqn:E; cbn; rewrite E; [reflexivity | exact IH].
Qed.

Lemma getitem_setitem_other d k v k' :
  k' <> k -> getitem (setitem d k v) k' = getitem d k'.
Proof.
  intros Hne. induction d as [|[k0 v0] d IH]; cbn.
  - destruct (String.eqb_spec k k'); [congruence | reflexivity].
  - destruct (String.eqb_spec k0 k).
    + subst k0. cbn. destruct (String.eqb_spec k k'); [congruence | reflexivity].
    + cbn. destruct (String.eqb k0 k'); [reflexivity | exact IH].
Qed.

Lemma has_key_setitem d k v k' : has_key d k' -> has_key (setitem d k v) k'.
Proof.
  unfold has_key. intros H. destruct (String.eqb_spec k' k).
  - subst. rewrite getitem_setitem_same. discriminate.
  - rewrite getitem_setitem_other by assumption. exact H.
Qed.

Lemma setitem_new d k v :
  getitem d k = None -> setitem d k v = d ++ [(k, v)].
Proof.
  induction d as [|[k' v'] d IH]; cbn; [reflexivity|].
  destruct (String.eqb k' k); [discriminate|].
  intros H. rewrite (IH H). reflexivity.
Qed.

Lemma getitem_app_new d k v k' :
  getitem d k' = None -> k' <> k -> getitem (d ++ [(k, v)]) k' = None.
Proof.
  intros Hd Hne. induction d as [|[k0 v0] d IH]; cbn in *.
  - destruct (String.eqb_spec k k'); [congruence | reflexivity].
  - destruct (String.eqb k0 k'); [discriminate | apply IH; exact Hd].
Qed.

(** A dict without nested values is copied item by item. *)
Lemma for_items_atoms rec sep items : forall d,
  Forall (fun kv => is_atom (snd kv) = true) items ->
  NoDup (map fst items) ->
  (forall k, In k (map fst items) -> getitem d k = None) ->
  for_items rec None sep items d = Ret (d ++ items).
Proof.
  induction items as [|[k v] rest IH]; intros d Hatoms Hnodup Hfresh.
  - cbn. rewrite app_nil_r. reflexivity.
  - inversion Hatoms as [|x l Hv Hrest]; subst. cbn [snd] in Hv.
    cbn [map fst] in Hnodup. inversion Hnodup as [|x l Hnotin Hnd]; subst.
    destruct v as [repr| |]; try discriminate.
    cbn [for_items prefixed].
    rewrite setitem_new by (apply Hfresh; left; reflexivity).
    rewrite IH; [rewrite <- app_assoc; reflexivity | exact Hrest | exact Hnd |].
    intros k' Hin. apply getitem_app_new.
    + apply Hfresh. right. exact Hin.
    + intros ->. contradiction.
Qed.

Lemma for_elems_keeps_keys elems :
  Forall keeps_keys elems ->
  forall key i d d',
    for_elems flatten_dictionary key elems i d = Ret d' ->
    forall k, has_key d k -> has_key d' k.
Proof.
  induction 1 as [|r more [Hr _] _ IH]; intros key i d d' Hrun k Hk.
  - inversion Hrun; subst. exact Hk.
  - cbn [for_elems] in Hrun.
    destruct (flatten_dictionary r d _ "_") as [d1|e|] eqn:E; try discriminate.
    eapply IH; [exact Hrun|]. eapply Hr; eassumption.
Qed.

Lemma for_items_keeps_keys items :
  Forall (fun kv => keeps_keys (snd kv)) items ->
  forall p sep d d',
    for_items flatten_dictionary p sep items d = Ret d' ->
    forall k, has_key d k -> has_key d' k.
Proof.
  induction 1 as [|[k0 v] rest [Hflat Hlist] _ IH]; intros p sep d d' Hrun k Hk.
  - inversion Hrun; subst. exact Hk.
  - cbn [for_items snd] in *. destruct v as [repr|its|elems].
    + eapply IH; [exact Hrun|]. apply has_key_setitem. exact Hk.
    + destruct (flatten_dictionary (Dict its) d _ "_") as [d1|e|] eqn:E;
        try discriminate.
      eapply IH; [exact Hrun|]. apply has_key_setitem.
      eapply Hflat; eassumption.
    + destruct (for_elems flatten_dictionary _ elems 0 d) as [d1|e|] eqn:E;
        try discriminate.
      eapply IH; [exact Hrun|]. apply has_key_setitem.
      eapply Hlist; eassumption.
Qed.

Lemma flatten_keeps_keys v : keeps_keys v.
Proof.
  induction v as [repr|items IH|elems IH] using value_nested_ind.
  - split; [| exact I]. intros d p sep d' H. discriminate.
  - split; [| exact I]. intros d p sep d' H. cbn [flatten_dictionary] in H.
    eapply for_items_keeps_keys; eassumption.
  - split; [intros d p sep d' H; discriminate|].
    apply for_elems_keeps_keys. exact IH.
Qed.

Lemma for_items_top_keys items : forall sep d d',
  for_items flatten_dictionary None sep items d = Ret d' ->
  forall k v, In (k, v) items -> has_key d' k.
Proof.
  assert (Hall : forall l : list (string * value),
            Forall (fun kv => keeps_keys (snd kv)) l).
  { intros l. apply Forall_forall. intros kv _. apply flatten_keeps_keys. }
  induction items as [|[k0 v0] rest IH]; intros sep d d' Hrun k v Hin;
    [contradiction|].
  cbn [for_items prefixed] in Hrun.
  assert (Hstep : exists d1,
            for_items flatten_dictionary None sep rest (setitem d1 k0 v0)
            = Ret d').
  { destruct v0 as [repr|its|elems].
    - exists d. exact Hrun.
    - destruct (flatten_dictionary (Dict its) d _ "_") as [d1|e|];
        try discriminate. exists d1. exact Hrun.
    - destruct (for_elems flatten_dictionary k0 elems 0 d) as [d1|e|];
        try discriminate. exists d1. exact Hrun. }
  destruct Hstep as [d1 Hrest].
  destruct Hin as [Heq | Hin].
  - inversion Heq; subst.
    eapply for_items_keeps_keys; [apply Hall | exact Hrest |].
    unfold has_key. rewrite getitem_setitem_same. discriminate.
  - eapply IH; eassumption.
Qed.

End FlattenKeys.

(** X23. Flattening a dict that holds no dict and no list gives the dict
    itself, key for key and in order. *)
Theorem flat_dict_is_returned_unchanged (items : list (string * Flatten.value)) :
  Forall (fun kv => is_atom (snd kv) = true) items ->
  NoDup (map fst items) ->
  Flatten.flatten (Flatten.Dict items) = Ret items.
Proof.
  intros Hatoms Hnodup. unfold Flatten.flatten. cbn [Flatten.flatten_dictionary].
  rewrite for_items_atoms; [reflexivity | exact Hatoms | exact Hnodup |].
  reflexivity.
Qed.

Lemma flat_dict_is_returned_unchanged_witness :
  Flatten.flatten
    (Flatten.Dict [("city", Flatten.Atom "Orlando"); ("beds", Flatten.Atom "3")]%string)
  = Ret [("city", Flatten.Atom "Orlando"); ("beds", Flatten.Atom "3")]%string.
Proof.
  apply flat_dict_is_returned_unchanged.
  - repeat constructor.
  - repeat constructor; cbn; intuition discriminate.
Defined.

(** X24. A flattening that returns removes no key from the output dict
    it was given, and every top-level key of its argument is a key of the
    result. *)
Theorem flatten_keeps_every_key (items : list (string * Flatten.value))
  (dict_out flat : Flatten.dict) (separator : string) :
  Flatten.flatten_dictionary (Flatten.Dict items) dict_out None separator
  = Ret flat ->
  (forall k, has_key dict_out k -> has_key flat k) /\
  (forall k v, In (k, v) items -> has_key flat k).
Proof.
  intros Hrun. split.
  - intros k Hk.
    exact (proj1 (flatten_keeps_keys (Flatten.Dict items)) _ _ _ _ Hrun k Hk).
  - cbn [Flatten.flatten_dictionary] in Hrun.
    eapply for_items_top_keys. exact Hrun.
Qed.

Lemma flatten_keeps_every_key_witness :
  let nested :=
    [("a_b", Flatten.Atom "1");
     ("a", Flatten.Dict [("b", Flatten.Atom "2")])]%string in
  let flat :=
    [("a_b", Flatten.Atom "2");
     ("a", Flatten.Dict [("b", Flatten.Atom "2")])]%string in
  Flatten.flatten_dictionary (Flatten.Dict nested) [] None "_" = Ret flat /\
  has_key flat "a_b" /\ has_key flat "a".
Proof.
  cbv zeta.
  assert (Hrun :
    Flatten.flatten_dictionary
      (Flatten.Dict [("a_b", Flatten.Atom "1");
                     ("a", Flatten.Dict [("b", Flatten.Atom "2")])]%string)
      [] None "_"
    = Ret [("a_b", Flatten.Atom "2");
           ("a", Flatten.Dict [("b", Flatten.Atom "2")])]%string)
    by (vm_compute; reflexivity).
  split; [exact Hrun|].
  destruct (flatten_keeps_every_key _ _ _ _ Hrun) as [_ Hkeys].
  split; eapply Hkeys; cbn; eauto.
Defined.

Section FlattenNamespace.

Import Flatten.

Lemma prefix_append a b : String.prefix a (a ++ b) = true.
Proof.
  induction a as [|c a IH]; cbn.
  - destruct b; reflexivity.
  - destruct (Ascii.ascii_dec c c); [exact IH | contradiction].
Qed.

Lemma prefix_trans a b c :
  String.prefix a b = true -> String.prefix b c = true ->
  String.prefix a c = true.
Proof.
  revert b c. induction a as [|x a IH]; intros b c Hab Hbc.
  - destruct c; reflexivity.
  - destruct b as [|y b]; [discriminate|].
    destruct c as [|z c]; [discriminate|]. cbn in *.
    destruct (Ascii.ascii_dec x y); [| discriminate].
    destruct (Ascii.ascii_dec y z); [| discriminate]. subst.
    destruct (Ascii.ascii_dec z z); [| contradiction].
    eapply IH; eassumption.
Qed.

Lemma prefix_refl a : String.prefix a a = true.
Proof.
  induction a as [|c a IH]; cbn; [reflexivity|].
  destruct (Ascii.ascii_dec c c); [exact IH | contradiction].
Qed.

Lemma same_outside_refl ns d : same_outside ns d d.
Proof. intros k _. reflexivity. Qed.

Lemma same_outside_trans ns d1 d2 d3 :
  same_outside ns d1 d2 -> same_outside ns d2 d3 -> same_outside ns d1 d3.
Proof. intros H1 H2 k Hk. rewrite (H2 k Hk). apply H1. exact Hk. Qed.

Lemma same_outside_narrow ns ns' d d' :
  String.prefix ns ns' = true -> same_outside ns' d d' -> same_outside ns d d'.
Proof.
  intros Hp H k Hk. apply H.
  destruct (String.prefix ns' k) eqn:E; [| reflexivity].
  rewrite (prefix_trans _ _ _ Hp E) in Hk. discriminate.
Qed.

Lemma same_outside_setitem ns d k v :
  String.prefix ns k = true -> same_outside ns d (setitem d k v).
Proof.
  intros Hp k' Hk'. apply getitem_setitem_other. intros ->. congruence.
Qed.

Lemma prefixed_some p sep k :
  p <> EmptyString -> prefixed (Some p) sep k = (p ++ sep ++ k)%string.
Proof.
  intros Hp. unfold prefixed.
  destruct (String.eqb_spec p ""); [contradiction | reflexivity].
Qed.

Lemma append_nonempty (a b : string) :
  a <> EmptyString -> (a ++ b)%string <> EmptyString.
Proof. destruct a; [contradiction | discriminate]. Qed.

Lemma for_elems_stays_inside elems :
  Forall stays_inside elems ->
  forall key i d d',
    key <> EmptyString ->
    for_elems flatten_dictionary key elems i d = Ret d' ->
    same_outside (key ++ "_") d d'.
Proof.
  induction 1 as [|r more [Hr _] _ IH]; intros key i d d' Hkey Hrun.
  - inversion Hrun; subst. apply same_outside_refl.
  - cbn [for_elems] in Hrun.
    destruct (flatten_dictionary r d _ "_") as [d1|e|] eqn:E; try discriminate.
    eapply same_outside_trans; [| eapply IH; eassumption].
    destruct (i <=? 1)%nat.
    + eapply Hr; eassumption.
    + apply Hr in E; [| apply append_nonempty; exact Hkey].
      eapply same_outside_narrow; [| exact E].
      rewrite !append_assoc. cbn [append].
      change (String "_" (Scraper.str (Z.of_nat i) ++ "_"))%string
        with ("_" ++ (Scraper.str (Z.of_nat i) ++ "_"))%string.
      rewrite <- append_assoc. apply prefix_append.
Qed.

Lemma for_items_stays_inside items :
  Forall (fun kv => stays_inside (snd kv)) items ->
  forall p sep d d',
    p <> EmptyString ->
    for_items flatten_dictionary (Some p) sep items d = Ret d' ->
    same_outside (p ++ sep) d d'.
Proof.
  induction 1 as [|[k0 v] rest [Hflat Hlist] _ IH]; intros p sep d d' Hp Hrun.
  - inversion Hrun; subst. apply same_outside_refl.
  - cbn [for_items snd] in *. rewrite !prefixed_some in Hrun by
      (try exact Hp; apply append_nonempty; exact Hp).
    assert (Hk : String.prefix (p ++ sep) (p ++ sep ++ k0) = true).
    { rewrite <- append_assoc. apply prefix_append. }
    assert (Hk2 : String.prefix (p ++ sep) (p ++ sep ++ p ++ sep ++ k0) = true).
    { rewrite <- append_assoc. apply prefix_append. }
    destruct v as [repr|its|elems].
    + eapply same_outside_trans; [| eapply IH; eassumption].
      apply same_outside_setitem. exact Hk.
    + destruct (flatten_dictionary (Dict its) d _ "_") as [d1|e|] eqn:E;
        try discriminate.
      eapply same_outside_trans; [| eapply IH; eassumption].
      eapply same_outside_trans; [| apply same_outside_setitem; exact Hk].
      apply Hflat in E; [| apply append_nonempty; exact Hp].
      eapply same_outside_narrow; [| exact E].
      eapply prefix_trans; [exact Hk | apply prefix_append].
    + destruct (for_elems flatten_dictionary _ elems 0 d) as [d1|e|] eqn:E;
        try discriminate.
      eapply same_outside_trans; [| eapply IH; eassumption].
      eapply same_outside_trans; [| apply same_outside_setitem; exact Hk2].
      apply Hlist in E; [| apply append_nonempty; exact Hp].
      eapply same_outside_narrow; [| exact E].
      eapply prefix_trans; [exact Hk2 | apply prefix_append].
Qed.

Lemma flatten_stays_inside v : stays_inside v.
Proof.
  induction v as [repr|items IH|elems IH] using value_nested_ind.
  - split; [| exact I]. intros d p sep d' _ H. discriminate.
  - split; [| exact I]. intros d p sep d' Hp H. cbn [flatten_dictionary] in H.
    eapply for_items_stays_inside; eassumption.
  - split; [intros d p sep d' _ H; discriminate|].
    apply for_elems_stays_inside. exact IH.
Qed.

End FlattenNamespace.

(** X25. Called under a parent key that is not empty, [flatten_dictionary]
    writes only keys that start with parent key + separator: every other
    key of the output dict keeps its value, or stays absent. *)
Theorem flatten_writes_under_parent_key (in_dict : Flatten.value)
  (dict_out flat : Flatten.dict) (parent_key separator : string) :
  parent_key <> EmptyString ->
  Flatten.flatten_dictionary in_dict dict_out (Some parent_key) separator
  = Ret flat ->
  forall k,
    String.prefix (parent_key ++ separator) k = false ->
    Flatten.getitem flat k = Flatten.getitem dict_out k.
Proof.
  intros Hp Hrun.
  exact (proj1 (flatten_stays_inside in_dict) _ _ _ _ Hp Hrun).
Qed.

Lemma flatten_writes_under_parent_key_witness :
  let before := [("id", Flatten.Atom "7")]%string in
  let after :=
    [("id", Flatten.Atom "7"); ("home.beds", Flatten.Atom "3")]%string in
  Flatten.flatten_dictionary (Flatten.Dict [("beds", Flatten.Atom "3")]%string)
    before (Some "home"%string) "." = Ret after /\
  Flatten.getitem after "id" = Flatten.getitem before "id".
Proof.
  cbv zeta.
  assert (Hrun :
    Flatten.flatten_dictionary (Flatten.Dict [("beds", Flatten.Atom "3")]%string)
      [("id", Flatten.Atom "7")]%string (Some "home"%string) "."
    = Ret [("id", Flatten.Atom "7"); ("home.beds", Flatten.Atom "3")]%string)
    by reflexivity.
  split; [exact Hrun|].
  apply (flatten_writes_under_parent_key _ _ _ "home" "." ltac:(discriminate) Hrun).
  reflexivity.
Defined.

Lemma for_items_separator rec parent_key separator items : forall d,
  parent_key = None \/ parent_key = Some EmptyString ->
  Flatten.for_items rec parent_key separator items d
  = Flatten.for_items rec parent_key "_" items d.
Proof.
  intros d Hp.
  assert (Hk : forall k, Flatten.prefixed parent_key separator k
                         = Flatten.prefixed parent_key "_" k).
  { intros k. destruct Hp as [-> | ->]; reflexivity. }
  revert d. induction items as [|[k v] rest IH]; intros d; [reflexivity|].
  cbn [Flatten.for_items]. rewrite !Hk.
  destruct v as [repr|its|elems].
  - apply IH.
  - destruct (rec _ _ _ _); try reflexivity. apply IH.
  - destruct (Flatten.for_elems _ _ _ _ _); try reflexivity. apply IH.
Qed.

(** X26. Without a parent key (none, or the empty string) the separator
    has no effect on the result: the nested calls do not pass it on, so
    nested keys are joined by the default [_] whatever separator the
    caller asked for. *)
Theorem separator_is_ignored_without_parent_key (in_dict : Flatten.value)
  (dict_out : Flatten.dict) (parent_key : option string) (separator : string) :
  parent_key = None \/ parent_key = Some EmptyString ->
  Flatten.flatten_dictionary in_dict dict_out parent_key separator
  = Flatten.flatten_dictionary in_dict dict_out parent_key "_".
Proof.
  intros Hp. destruct in_dict as [repr|items|elems]; try reflexivity.
  cbn [Flatten.flatten_dictionary]. apply for_items_separator. exact Hp.
Qed.

Lemma separator_is_ignored_without_parent_key_witness :
  let nested :=
    Flatten.Dict [("a", Flatten.Dict [("b", Flatten.Atom "1")])]%string in
  Flatten.flatten_dictionary nested [] None "." 
  = Ret [("a_b", Flatten.Atom "1");
         ("a", Flatten.Dict [("b", Flatten.Atom "1")])]%string.
Proof.
  cbv zeta.
  rewrite (separator_is_ignored_without_parent_key _ [] None "."
             (or_introl eq_refl)).
  reflexivity.
Defined.

(** ** The files the scraper writes *)

Section FileFacts.

Import ScraperFiles.

Lemma split_written_lines urls :
  Forall (fun url => all_chars (fun c => negb (Ascii.eqb c "010")) url = true)
         urls ->
  StringUtils.split "010" (written_lines urls) = urls ++ [EmptyString].
Proof.
  induction 1 as [|url rest Hurl _ IH]; [reflexivity|].
  cbn [written_lines app]. cbn [append].
  rewrite split_app by exact Hurl. rewrite IH. reflexivity.
Qed.

Lemma to_int_proper z : Z.to_int z <> Decimal.Pos Decimal.Nil /\
                        Z.to_int z <> Decimal.Neg Decimal.Nil.
Proof.
  destruct z; cbn; split; try discriminate;
    intros H; inversion H as [H']; exact (Unsigned.to_uint_nonnil _ H').
Qed.

Lemma str_inj z z' : Scraper.str z = Scraper.str z' -> z = z'.
Proof.
  unfold Scraper.str. intros H. apply to_int_inj.
  destruct (to_int_proper z) as [H1 H2], (to_int_proper z') as [H1' H2'].
  pose proof (NilZero.isi _ H1 H2) as E. rewrite H in E.
  rewrite (NilZero.isi _ H1' H2') in E. inversion E. reflexivity.
Qed.

Lemma append_inj_l (a x y : string) :
  (a ++ x = a ++ y)%string -> x = y.
Proof. induction a; cbn; intros H; [exact H | inversion H; auto]. Qed.

Lemma length_append (a b : string) :
  String.length (a ++ b) = (String.length a + String.length b)%nat.
Proof. induction a; cbn; [reflexivity | rewrite IHa; reflexivity]. Qed.

Lemma append_inj_r (t x y : string) :
  (x ++ t = y ++ t)%string -> x = y.
Proof.
  revert y. induction x as [|c x IH]; intros [|d y] H; cbn in H.
  - reflexivity.
  - exfalso. apply (f_equal String.length) in H. cbn in H.
    rewrite length_append in H. lia.
  - exfalso. apply (f_equal String.length) in H. cbn in H.
    rewrite length_append in H. lia.
  - inversion H; subst. f_equal. apply IH. assumption.
Qed.

Lemma file_name_inj TODAY i j : file_name TODAY i = file_name TODAY j -> i = j.
Proof.
  unfold file_name. intros H.
  apply append_inj_l in H. apply append_inj_l in H. apply append_inj_l in H.
  apply append_inj_r in H. apply str_inj in H. lia.
Qed.

Lemma save_from_names TODAY pages : forall ind,
  map fst (save_from TODAY ind pages)
  = map (file_name TODAY) (seq ind (length pages)) /\
  map snd (save_from TODAY ind pages) = pages.
Proof.
  induction pages as [|page rest IH]; intros ind; [split; reflexivity|].
  cbn [save_from map fst snd length seq]. destruct (IH (S ind)) as [H1 H2].
  rewrite H1, H2. split; reflexivity.
Qed.

Lemma save_from_combine TODAY pages : forall ind,
  ScraperFiles.save_from TODAY ind pages
  = combine (map (ScraperFiles.file_name TODAY) (seq ind (length pages))) pages.
Proof.
  induction pages as [|page rest IH]; intros ind; [reflexivity|].
  cbn [ScraperFiles.save_from length seq map combine]. rewrite IH. reflexivity.
Qed.

End FileFacts.

(** X27. When no URL of the frontier contains a line feed, the text
    [save_urls] writes splits at line feeds into the URLs of the
    frontier, in order, followed by one empty string. *)
Theorem saved_urls_read_back (self : Scraper.Scraper) :
  Forall (fun url => all_chars (fun c => negb (Ascii.eqb c "010")) url = true)
         (Scraper.urls self) ->
  StringUtils.split "010" (ScraperFiles.save_urls self)
  = Scraper.urls self ++ [EmptyString].
Proof. apply split_written_lines. Qed.

Lemma saved_urls_read_back_witness :
  StringUtils.split "010"
    (ScraperFiles.save_urls
       (Scraper.set_urls (Scraper.init 5 60) ["http://a/1"; "http://a/2"]%string))
  = ["http://a/1"; "http://a/2"; ""]%string.
Proof.
  apply (saved_urls_read_back
           (Scraper.set_urls (Scraper.init 5 60) ["http://a/1"; "http://a/2"]%string)).
  repeat constructor.
Defined.

(** X28. [_save_pages] writes the pages under pairwise distinct file
    names: the i-th page goes to the file numbered i+1 and no page
    overwrites another. *)
Theorem saved_pages_have_distinct_names (TODAY : string) (pages : list string) :
  let written := ScraperFiles._save_pages TODAY pages in
  NoDup (map fst written) /\
  written
  = combine (map (ScraperFiles.file_name TODAY) (seq 0 (length pages))) pages.
Proof.
  cbv zeta. unfold ScraperFiles._save_pages.
  destruct (save_from_names TODAY pages 0) as [Hn _]. split.
  - rewrite Hn. apply Injective_map_NoDup; [| apply seq_NoDup].
    intros i j. apply file_name_inj.
  - apply save_from_combine.
Qed.
